(** * Eternal QR generator: the history store and the export composer

    A shallow embedding of [src/App.tsx]: the bounded recent-items history
    ([addToHistory], [clearHistory], the two [useEffect] hooks that hydrate
    and persist it) and the canvas compositing routine ([downloadQR]).

    JavaScript data is modelled as the program has it:
    - a string is its sequence of UTF-16 code units ([list N]);
    - [size], [padding] and the other canvas coordinates are binary64
      numbers ([float]);
    - [Date.now()] readings are integers ([Z]);
    - what [JSON.parse] returns is a JSON tree ([JSON.value]). *)

From Stdlib Require Import ZArith NArith QArith Qminmax Qabs Lqa Psatz.
From Stdlib Require Import Ascii String Floats Lia.
From Stdlib Require Import DecimalFacts DecimalPos DecimalN.
From stdpp Require Import base tactics option list sorting.

#[local] Set Warnings "-inexact-float".

(** ** JavaScript strings *)

Abbreviation jsstring := (list N).

Module JS.

Local Open Scope N_scope.

(** A string literal of the source, as code units (ASCII only). *)
Definition lit (s : string) : jsstring :=
  (λ a, N_of_ascii a) <$> list_ascii_of_string s.

(** ECMAScript [WhiteSpace]: TAB, VT, FF, ZWNBSP and the space separators. *)
Definition isWhiteSpace (c : N) : bool :=
  (c =? 0x0009) || (c =? 0x000B) || (c =? 0x000C) || (c =? 0xFEFF)
  || (c =? 0x0020) || (c =? 0x00A0) || (c =? 0x1680)
  || ((0x2000 <=? c) && (c <=? 0x200A))
  || (c =? 0x202F) || (c =? 0x205F) || (c =? 0x3000).

(** ECMAScript [LineTerminator]: LF, CR, LS, PS. *)
Definition isLineTerminator (c : N) : bool :=
  (c =? 0x000A) || (c =? 0x000D) || (c =? 0x2028) || (c =? 0x2029).

Definition isTrimmed (c : N) : bool := isWhiteSpace c || isLineTerminator c.

Fixpoint trimStart (s : jsstring) : jsstring :=
  match s with
  | [] => []
  | c :: r => if isTrimmed c then trimStart r else s
  end.

Definition trimEnd (s : jsstring) : jsstring :=
  reverse (trimStart (reverse s)).

(** [String.prototype.trim] *)
Definition trim (s : jsstring) : jsstring := trimEnd (trimStart s).

(** [String.prototype.substr(start, length)] for non-negative arguments. *)
Definition substr (start len : nat) (s : jsstring) : jsstring :=
  take len (drop start s).

(** [!s]: the empty string is the only falsy string. *)
Definition falsy (s : jsstring) : bool :=
  match s with [] => true | _ => false end.

(** Decimal digits, most significant first, as code units. *)
Fixpoint digits (d : Decimal.uint) : jsstring :=
  match d with
  | Decimal.Nil => []
  | Decimal.D0 d => 48 :: digits d
  | Decimal.D1 d => 49 :: digits d
  | Decimal.D2 d => 50 :: digits d
  | Decimal.D3 d => 51 :: digits d
  | Decimal.D4 d => 52 :: digits d
  | Decimal.D5 d => 53 :: digits d
  | Decimal.D6 d => 54 :: digits d
  | Decimal.D7 d => 55 :: digits d
  | Decimal.D8 d => 56 :: digits d
  | Decimal.D9 d => 57 :: digits d
  end.

(** [Number::toString] of an integer (below 10^21 in magnitude, where
    JavaScript prints every digit): [String(n)], [`${n}`]. *)
Definition numberToString (z : Z) : jsstring :=
  match z with
  | Z0 => [48]
  | Zpos p => digits (Pos.to_uint p)
  | Zneg p => 45 :: digits (Pos.to_uint p)
  end.

(** [Math.max] of two numbers: [NaN] if either is, and [+0] above [-0]. *)
Definition Math_max (a b : float) : float :=
  if PrimFloat.is_nan a || PrimFloat.is_nan b then PrimFloat.nan
  else if PrimFloat.ltb a b then b
  else if PrimFloat.ltb b a then a
  else if PrimFloat.is_zero a then PrimFloat.add a b
  else a.

(** The number an integer is (exact below 2^53). *)
Definition ofInteger (z : Z) : float := PrimFloat.of_uint63 (Uint63.of_Z z).

(** A statement either completes or throws. *)
Inductive completion (A : Type) : Type :=
  | Normal (a : A)
  | Throw (error : jsstring).
Arguments Normal {A} a.
Arguments Throw {A} error.

Definition bind {A B} (m : completion A) (k : A → completion B)
    : completion B :=
  match m with Normal a => k a | Throw e => Throw e end.

(** [try { body } catch (e) { handler }] *)
Definition tryCatch {A} (body : completion A)
    (handler : jsstring → completion A) : completion A :=
  match body with Normal a => Normal a | Throw e => handler e end.

End JS.

(** ** JSON

    [JSON.parse] and [JSON.stringify] as ECMA-262 defines them, on the
    values JSON text can denote.  A number written with a fraction or an
    exponent is kept as it is written ([Real]): its binary64 value is not
    computed. *)

Module JSON.

Local Open Scope N_scope.

Local Unset Elimination Schemes.

Inductive value : Type :=
  | Null
  | Boolean (b : bool)
  | Int (z : Z)
  | Real (literal : jsstring)
  | Str (s : jsstring)
  | Array (elements : list value)
  | Object (members : list (jsstring * value)).

Local Set Elimination Schemes.

(** *** [JSON.stringify] *)

Definition hexDigit (d : N) : N := if d <? 10 then 48 + d else 87 + d.

(** [\uXXXX], lower-case hexadecimal. *)
Definition unicodeEscape (c : N) : jsstring :=
  [0x5C; 0x75; hexDigit (c / 4096 mod 16); hexDigit (c / 256 mod 16);
   hexDigit (c / 16 mod 16); hexDigit (c mod 16)].

Definition isLeadSurrogate (c : N) : bool := (0xD800 <=? c) && (c <=? 0xDBFF).
Definition isTrailSurrogate (c : N) : bool := (0xDC00 <=? c) && (c <=? 0xDFFF).

(** [QuoteJSONString] on one code point that is a single code unit. *)
Definition quoteUnit (c : N) : jsstring :=
  if c =? 0x08 then [0x5C; 0x62]
  else if c =? 0x09 then [0x5C; 0x74]
  else if c =? 0x0A then [0x5C; 0x6E]
  else if c =? 0x0C then [0x5C; 0x66]
  else if c =? 0x0D then [0x5C; 0x72]
  else if c =? 0x22 then [0x5C; 0x22]
  else if c =? 0x5C then [0x5C; 0x5C]
  else if (c <? 0x20) || isLeadSurrogate c || isTrailSurrogate c
       then unicodeEscape c
  else [c].

(** The string is read by code points: a well-formed surrogate pair is
    copied, a lone surrogate is escaped. *)
Fixpoint quoteBody (s : jsstring) : jsstring :=
  match s with
  | [] => []
  | c :: r =>
      if isLeadSurrogate c then
        match r with
        | d :: r' =>
            if isTrailSurrogate d then c :: d :: quoteBody r'
            else quoteUnit c ++ quoteBody r
        | [] => quoteUnit c
        end
      else quoteUnit c ++ quoteBody r
  end.

Definition quote (s : jsstring) : jsstring := 0x22 :: quoteBody s ++ [0x22].

Fixpoint commas (parts : list jsstring) : jsstring :=
  match parts with
  | [] => []
  | [p] => p
  | p :: ps => p ++ 0x2C :: commas ps
  end.

Fixpoint stringify (v : value) : jsstring :=
  match v with
  | Null => JS.lit "null"
  | Boolean true => JS.lit "true"
  | Boolean false => JS.lit "false"
  | Int z => JS.numberToString z
  | Real literal => literal
  | Str s => quote s
  | Array vs => 0x5B :: commas (stringify <$> vs) ++ [0x5D]
  | Object ms =>
      0x7B :: commas ((λ m, quote m.1 ++ 0x3A :: stringify m.2) <$> ms)
           ++ [0x7D]
  end.

(** *** [JSON.parse] *)

Definition isWhiteSpace (c : N) : bool :=
  (c =? 0x20) || (c =? 0x09) || (c =? 0x0A) || (c =? 0x0D).

Fixpoint skipWhiteSpace (s : jsstring) : jsstring :=
  match s with
  | c :: r => if isWhiteSpace c then skipWhiteSpace r else s
  | [] => []
  end.

Definition hexValue (c : N) : option N :=
  if (48 <=? c) && (c <=? 57) then Some (c - 48)
  else if (97 <=? c) && (c <=? 102) then Some (c - 87)
  else if (65 <=? c) && (c <=? 70) then Some (c - 55)
  else None.

(** The character after a backslash, other than [u]. *)
Definition simpleEscape (e : N) : option N :=
  if e =? 0x22 then Some 0x22
  else if e =? 0x5C then Some 0x5C
  else if e =? 0x2F then Some 0x2F
  else if e =? 0x62 then Some 0x08
  else if e =? 0x66 then Some 0x0C
  else if e =? 0x6E then Some 0x0A
  else if e =? 0x72 then Some 0x0D
  else if e =? 0x74 then Some 0x09
  else None.

(** The characters of a string after its opening quote, up to and
    including the closing one; what follows is returned as well. *)
Fixpoint readString (s : jsstring) : option (jsstring * jsstring) :=
  match s with
  | [] => None
  | c :: r =>
      if c =? 0x22 then Some ([], r)
      else if c =? 0x5C then
        match r with
        | [] => None
        | e :: r1 =>
            if e =? 0x75 then
              match r1 with
              | h1 :: h2 :: h3 :: h4 :: r2 =>
                  a ← hexValue h1; b ← hexValue h2;
                  c ← hexValue h3; d ← hexValue h4;
                  '(str, rest) ← readString r2;
                  Some (((a * 16 + b) * 16 + c) * 16 + d :: str, rest)
              | _ => None
              end
            else
              u ← simpleEscape e;
              '(str, rest) ← readString r1;
              Some (u :: str, rest)
        end
      else if c <? 0x20 then None
      else '(str, rest) ← readString r; Some (c :: str, rest)
  end.

Definition isDigit (c : N) : bool := (48 <=? c) && (c <=? 57).

(** The longest prefix of digits, and what follows it. *)
Fixpoint spanDigits (s : jsstring) : jsstring * jsstring :=
  match s with
  | c :: r =>
      if isDigit c then let '(ds, rest) := spanDigits r in (c :: ds, rest)
      else ([], s)
  | [] => ([], [])
  end.

Fixpoint digitsValue (ds : jsstring) : Decimal.uint :=
  match ds with
  | [] => Decimal.Nil
  | c :: r =>
      let d := digitsValue r in
      match c - 48 with
      | 0 => Decimal.D0 d | 1 => Decimal.D1 d | 2 => Decimal.D2 d
      | 3 => Decimal.D3 d | 4 => Decimal.D4 d | 5 => Decimal.D5 d
      | 6 => Decimal.D6 d | 7 => Decimal.D7 d | 8 => Decimal.D8 d
      | _ => Decimal.D9 d
      end
  end.

(** [int]: a lone [0], or a non-zero digit and the digits after it. *)
Definition readInt (s : jsstring) : option (jsstring * jsstring) :=
  match s with
  | c :: r =>
      if c =? 48 then Some ([48], r)
      else if isDigit c then let '(ds, rest) := spanDigits r in
                             Some (c :: ds, rest)
      else None
  | [] => None
  end.

(** [frac]: nothing, or a point and at least one digit. *)
Definition readFrac (s : jsstring) : option (jsstring * jsstring) :=
  match s with
  | c :: r =>
      if c =? 0x2E then
        match spanDigits r with
        | ([], _) => None
        | (ds, rest) => Some (c :: ds, rest)
        end
      else Some ([], s)
  | [] => Some ([], [])
  end.

(** [exp]: nothing, or [e]/[E], an optional sign and at least one digit. *)
Definition readExp (s : jsstring) : option (jsstring * jsstring) :=
  match s with
  | c :: r =>
      if (c =? 0x65) || (c =? 0x45) then
        let '(sign, r') :=
          match r with
          | g :: r' => if (g =? 0x2B) || (g =? 0x2D) then ([g], r')
                       else ([], r)
          | [] => ([], r)
          end in
        match spanDigits r' with
        | ([], _) => None
        | (ds, rest) => Some (c :: sign ++ ds, rest)
        end
      else Some ([], s)
  | [] => Some ([], [])
  end.

Definition readNumber (s : jsstring) : option (value * jsstring) :=
  let '(minus, s1) :=
    match s with
    | c :: r => if c =? 0x2D then (true, r) else (false, s)
    | [] => (false, s)
    end in
  '(int, s2) ← readInt s1;
  '(frac, s3) ← readFrac s2;
  '(exp, s4) ← readExp s3;
  match frac, exp with
  | [], [] =>
      let n := Z.of_N (N.of_uint (digitsValue int)) in
      Some (Int (if minus then - n else n)%Z, s4)
  | _, _ =>
      Some (Real ((if minus then [0x2D] else []) ++ int ++ frac ++ exp), s4)
  end.

Fixpoint stripPrefix (p s : jsstring) : option jsstring :=
  match p, s with
  | [], _ => Some s
  | a :: p', b :: s' => if a =? b then stripPrefix p' s' else None
  | _ :: _, [] => None
  end.

(** An array index: the canonical decimal of an integer below 2^32 - 1.
    The keys of an object are enumerated with the array indices first, in
    ascending order, and the other keys after them in creation order. *)
Definition arrayIndex (k : jsstring) : option N :=
  match readInt k with
  | Some (ds, []) =>
      let i := N.of_uint (digitsValue ds) in
      if i <? 4294967295 then Some i else None
  | _ => None
  end.

Fixpoint definePlain (k : jsstring) (v : value)
    (ms : list (jsstring * value)) : list (jsstring * value) :=
  match ms with
  | [] => [(k, v)]
  | (k', v') :: ms' =>
      if bool_decide (k' = k) then (k', v) :: ms'
      else (k', v') :: definePlain k v ms'
  end.

Fixpoint defineIndex (i : N) (k : jsstring) (v : value)
    (ms : list (jsstring * value)) : list (jsstring * value) :=
  match ms with
  | [] => [(k, v)]
  | (k', v') :: ms' =>
      match arrayIndex k' with
      | Some j =>
          if i <? j then (k, v) :: ms
          else if i =? j then (k', v) :: ms'
          else (k', v') :: defineIndex i k v ms'
      | None => (k, v) :: ms
      end
  end.

(** [CreateDataProperty]: a repeated key keeps its place and takes the
    later value. *)
Definition define (k : jsstring) (v : value)
    (ms : list (jsstring * value)) : list (jsstring * value) :=
  match arrayIndex k with
  | Some i => defineIndex i k v ms
  | None => definePlain k v ms
  end.

(** What the parser is reading: a value; the rest of an array after one of
    its elements; a member of an object; the rest of an object after one
    of its members. *)
Inductive goal : Type :=
  | AValue
  | Elements (acc : list value)
  | Member (acc : list (jsstring * value))
  | Members (acc : list (jsstring * value)).

(** Every recursive call is made after at least one character has been
    read, so [length s + 1] units of fuel are never used up. *)
Fixpoint parseGoal (fuel : nat) (g : goal) (s : jsstring)
    : option (value * jsstring) :=
  match fuel with
  | O => None
  | S fuel =>
      match g, skipWhiteSpace s with
      | _, [] => None
      | AValue, c :: r =>
          if c =? 0x7B then
            match skipWhiteSpace r with
            | [] => None
            | c' :: r' =>
                if c' =? 0x7D then Some (Object [], r')
                else parseGoal fuel (Member []) (c' :: r')
            end
          else if c =? 0x5B then
            match skipWhiteSpace r with
            | [] => None
            | c' :: r' =>
                if c' =? 0x5D then Some (Array [], r')
                else
                  '(v, r1) ← parseGoal fuel AValue (c' :: r');
                  parseGoal fuel (Elements [v]) r1
            end
          else if c =? 0x22 then
            '(str, rest) ← readString r; Some (Str str, rest)
          else if c =? 0x74 then
            rest ← stripPrefix (JS.lit "rue") r; Some (Boolean true, rest)
          else if c =? 0x66 then
            rest ← stripPrefix (JS.lit "alse") r; Some (Boolean false, rest)
          else if c =? 0x6E then
            rest ← stripPrefix (JS.lit "ull") r; Some (Null, rest)
          else readNumber (c :: r)
      | Elements acc, c :: r =>
          if c =? 0x2C then
            '(v, r1) ← parseGoal fuel AValue r;
            parseGoal fuel (Elements (acc ++ [v])) r1
          else if c =? 0x5D then Some (Array acc, r)
          else None
      | Member acc, c :: r =>
          if c =? 0x22 then
            '(k, r1) ← readString r;
            match skipWhiteSpace r1 with
            | c1 :: r2 =>
                if c1 =? 0x3A then
                  '(v, r3) ← parseGoal fuel AValue r2;
                  parseGoal fuel (Members (define k v acc)) r3
                else None
            | [] => None
            end
          else None
      | Members acc, c :: r =>
          if c =? 0x2C then parseGoal fuel (Member acc) r
          else if c =? 0x7D then Some (Object acc, r)
          else None
      end
  end.

(** The grammar accepts [text] as the value [parse text]. *)
Definition parse (text : jsstring) : option value :=
  match parseGoal (S (length text)) AValue text with
  | Some (v, rest) =>
      match skipWhiteSpace rest with [] => Some v | _ => None end
  | None => None
  end.

(** [JSON.parse(text)] throws a [SyntaxError] on any other text. *)
Definition JSON_parse (text : jsstring) : JS.completion value :=
  match parse text with
  | Some v => JS.Normal v
  | None => JS.Throw (JS.lit "SyntaxError")
  end.

(** Values without [Real] numbers whose objects have distinct keys, none
    of them an array index: their properties are enumerated in the order
    they are listed. *)
Fixpoint plain (v : value) : bool :=
  match v with
  | Real _ => false
  | Array vs => forallb plain vs
  | Object ms =>
      bool_decide (NoDup ms.*1)
      && forallb (λ m, bool_decide (arrayIndex m.1 = None)) ms
      && forallb (λ m, plain m.2) ms
  | _ => true
  end.

(** The property [key] of a parsed object. *)
Fixpoint property (key : jsstring) (ms : list (jsstring * value))
    : option value :=
  match ms with
  | [] => None
  | (k, v) :: ms' =>
      if bool_decide (k = key) then Some v else property key ms'
  end.

End JSON.

(** ** The history entry *)

Module QRHistoryItem.

Record t : Type := mk
  { id : jsstring;
    url : jsstring;
    fgColor : jsstring;
    bgColor : jsstring;
    timestamp : Z }.

#[export] Instance eq_dec : EqDecision t.
Proof. solve_decision. Defined.

(** The object an entry is at run time, its properties in the order the
    literal in [addToHistory] creates them. *)
Definition toJSON (i : t) : JSON.value :=
  JSON.Object
    [ (JS.lit "id", JSON.Str (id i));
      (JS.lit "url", JSON.Str (url i));
      (JS.lit "fgColor", JSON.Str (fgColor i));
      (JS.lit "bgColor", JSON.Str (bgColor i));
      (JS.lit "timestamp", JSON.Int (timestamp i)) ].

Definition stringProperty (key : string) (ms : list (jsstring * JSON.value))
    : option jsstring :=
  match JSON.property (JS.lit key) ms with
  | Some (JSON.Str s) => Some s
  | _ => None
  end.

Definition intProperty (key : string) (ms : list (jsstring * JSON.value))
    : option Z :=
  match JSON.property (JS.lit key) ms with
  | Some (JSON.Int z) => Some z
  | _ => None
  end.

(** Reading a run-time value at the interface [QRHistoryItem]: an object
    whose five properties have the declared types. *)
Definition ofJSON (v : JSON.value) : option t :=
  match v with
  | JSON.Object ms =>
      i ← stringProperty "id" ms;
      u ← stringProperty "url" ms;
      f ← stringProperty "fgColor" ms;
      b ← stringProperty "bgColor" ms;
      n ← intProperty "timestamp" ms;
      Some (mk i u f b n)
  | _ => None
  end.

End QRHistoryItem.

(** ** The component *)

Module App.

(** The [useState] cells of [App]. *)
Record State : Type := mkState
  { url : jsstring;
    fgColor : jsstring;
    bgColor : jsstring;
    size : float;
    history : list QRHistoryItem.t;
    copied : bool }.

Definition initial : State :=
  {| url := JS.lit "https://google.com";
     fgColor := JS.lit "#000000";
     bgColor := JS.lit "#ffffff";
     size := 256%float;
     history := [];
     copied := false |}.

Definition setUrl (v : jsstring) (st : State) : State :=
  mkState v (fgColor st) (bgColor st) (size st) (history st) (copied st).
Definition setFgColor (v : jsstring) (st : State) : State :=
  mkState (url st) v (bgColor st) (size st) (history st) (copied st).
Definition setBgColor (v : jsstring) (st : State) : State :=
  mkState (url st) (fgColor st) v (size st) (history st) (copied st).
Definition setSize (v : float) (st : State) : State :=
  mkState (url st) (fgColor st) (bgColor st) v (history st) (copied st).

(** [setHistory] with an updater function [prev => ...]. *)
Definition setHistory (f : list QRHistoryItem.t → list QRHistoryItem.t)
    (st : State) : State :=
  mkState (url st) (fgColor st) (bgColor st) (size st) (f (history st))
    (copied st).

(** [Math.random().toString(36).substr(2, 9)]: [random36] is the base-36
    rendering of the random draw, [0.xxxxxxxxxxx]. *)
Definition newId (random36 : jsstring) : jsstring := JS.substr 2 9 random36.

(** The object literal [newItem]. *)
Definition newItem (st : State) (random36 : jsstring) (now : Z)
    : QRHistoryItem.t :=
  {| QRHistoryItem.id := newId random36;
     QRHistoryItem.url := JS.trim (url st);
     QRHistoryItem.fgColor := fgColor st;
     QRHistoryItem.bgColor := bgColor st;
     QRHistoryItem.timestamp := now |}.

(** [addToHistory], run in the render whose cells are [st].  The handler is
    the only pending update of its event, so the updater's [prev] is the
    [history] the closure has read. *)
Definition addToHistory (st : State) (random36 : jsstring) (now : Z)
    : State :=
  if JS.falsy (url st) || bool_decide (JS.trim (url st) = []) then st
  else
    let item := newItem st random36 now in
    match history st with
    | [] => setHistory (λ prev, take 10 (item :: prev)) st
    | h :: _ =>
        if bool_decide (QRHistoryItem.url h ≠ QRHistoryItem.url item)
        then setHistory (λ prev, take 10 (item :: prev)) st
        else st
    end.

Definition clearHistory (st : State) : State := setHistory (λ _, []) st.

(** *** What the component does to the page *)

(** Calls on the 2D context of the export canvas. *)
Inductive CanvasCall : Type :=
  | fillStyle (color : jsstring)
  | beginPath
  | moveTo (x y : float)
  | lineTo (x y : float)
  | quadraticCurveTo (cpx cpy x y : float)
  | closePath
  | fill
  | drawImage (dx dy dWidth dHeight : float).  (* of the rendered symbol *)

Inductive Effect : Type :=
  | createCanvas (width height : float)  (* the values assigned to it *)
  | context (call : CanvasCall)
  | download (filename : jsstring)       (* the PNG data URL, clicked *)
  | consoleError (message : jsstring).

(** What the page answers: whether the preview holds a canvas, and whether
    a canvas gives a 2D context. *)
Record Page : Type := mkPage
  { qrCanvas : bool;
    context2d : bool }.

Definition padding (size : float) : float :=
  JS.Math_max 20 (size * 0.1).

Definition totalSize (size : float) : float :=
  (size + padding size * 2)%float.

(** The rounded rectangle, the symbol on top of it. *)
Definition compose (size : float) (bg : jsstring) : list Effect :=
  let padding := padding size in
  let totalSize := totalSize size in
  let radius := (totalSize * 0.1)%float in
  [ createCanvas totalSize totalSize;
    context (fillStyle bg);
    context beginPath;
    context (moveTo radius 0);
    context (lineTo (totalSize - radius) 0);
    context (quadraticCurveTo totalSize 0 totalSize radius);
    context (lineTo totalSize (totalSize - radius));
    context (quadraticCurveTo totalSize totalSize
               (totalSize - radius) totalSize);
    context (lineTo radius totalSize);
    context (quadraticCurveTo 0 totalSize 0 (totalSize - radius));
    context (lineTo 0 radius);
    context (quadraticCurveTo 0 0 radius 0);
    context closePath;
    context fill;
    context (drawImage padding padding size size) ]%float.

(** [`qr-code-${Date.now()}.png`] *)
Definition filename (now : Z) : jsstring :=
  JS.lit "qr-code-" ++ JS.numberToString now ++ JS.lit ".png".

(** [downloadQR]; [nowFile] is the [Date.now()] of the file name,
    [random36] and [nowItem] are what [addToHistory] draws. *)
Definition downloadQR (page : Page) (st : State)
    (nowFile : Z) (random36 : jsstring) (nowItem : Z)
    : State * list Effect :=
  if qrCanvas page then
    if context2d page then
      (addToHistory st random36 nowItem,
       compose (size st) (bgColor st)
       ++ [download (filename nowFile)])
    else (st, [createCanvas (totalSize (size st)) (totalSize (size st))])
  else (st, []).

(** A click on the export button, which is rendered with
    [disabled={!url}]. *)
Definition clickDownload (page : Page) (st : State)
    (nowFile : Z) (random36 : jsstring) (nowItem : Z)
    : State * list Effect :=
  if JS.falsy (url st) then (st, [])
  else downloadQR page st nowFile random36 nowItem.

(** *** Hydration and persistence

    [history] is declared [QRHistoryItem[]], and [historyValue] is such a
    history at run time.  [JSON.parse] is typed [any]: what the first
    effect hands to [setHistory] is whatever value the stored text
    denotes, so the hydrated cell is a [JSON.value]. *)

Definition historyValue (h : list QRHistoryItem.t) : JSON.value :=
  JSON.Array (QRHistoryItem.toJSON <$> h).

(** Reading the cell at its declared type. *)
Definition historyOf (v : JSON.value) : option (list QRHistoryItem.t) :=
  match v with
  | JSON.Array vs => mapM QRHistoryItem.ofJSON vs
  | _ => None
  end.

(** The first effect: [saved] is what [localStorage.getItem] returned.
    The result is the value given to [setHistory], if it was called. *)
Definition loadEffect (saved : option jsstring)
    : JS.completion (option JSON.value * list Effect) :=
  match saved with
  | Some text =>
      if JS.falsy text then JS.Normal (None, [])
      else
        JS.tryCatch
          (JS.bind (JSON.JSON_parse text) (λ v, JS.Normal (Some v, [])))
          (λ e, JS.Normal
                  (None, [consoleError (JS.lit "Failed to parse history")]))
  | None => JS.Normal (None, [])
  end.

(** The second effect: the text written under [qr_history]. *)
Definition saveEffect (cell : JSON.value) : jsstring := JSON.stringify cell.

Record Mounted : Type := mkMounted
  { cell : JSON.value;       (* the [history] cell once the page settles *)
    stored : jsstring;       (* the text under [qr_history] by then *)
    log : list Effect }.

(** Mounting: both effects run after the first render, where [history] is
    [[]]; if the first one has set the cell, the component renders again
    and the second effect runs on the new value.  The second render is taken
    to succeed, as it does on an array of entries: this is the mounting of a
    page whose stored text is absent, is not JSON, or denotes such an
    array. *)
Definition mount (saved : option jsstring) : JS.completion Mounted :=
  JS.bind (loadEffect saved) (λ '(update, log),
    let first := saveEffect (historyValue []) in
    match update with
    | None => JS.Normal (mkMounted (historyValue []) first log)
    | Some v => JS.Normal (mkMounted v (saveEffect v) log)
    end).

Definition loadFromHistory (item : QRHistoryItem.t) (st : State) : State :=
  setBgColor (QRHistoryItem.bgColor item)
    (setFgColor (QRHistoryItem.fgColor item)
       (setUrl (QRHistoryItem.url item) st)).

End App.

(** ** The history store seen through its contract

    [add(address, foreground, background)]: the user has typed [address] and
    picked the two colours, and the export hands the configuration to
    [addToHistory]. *)

Module Store.

Record call : Type := mkCall
  { address : jsstring;
    foreground : jsstring;
    background : jsstring;
    random36 : jsstring;   (* what [Math.random().toString(36)] gave *)
    now : Z }.             (* what [Date.now()] gave *)

Definition configure (c : call) (st : App.State) : App.State :=
  App.setBgColor (background c)
    (App.setFgColor (foreground c) (App.setUrl (address c) st)).

Definition add (st : App.State) (c : call) : App.State :=
  App.addToHistory (configure c st) (random36 c) (now c).

Definition adds (cs : list call) (st : App.State) : App.State :=
  foldl add st cs.

(** The entry a call creates when it is not suppressed. *)
Definition entry (c : call) : QRHistoryItem.t :=
  {| QRHistoryItem.id := App.newId (random36 c);
     QRHistoryItem.url := JS.trim (address c);
     QRHistoryItem.fgColor := foreground c;
     QRHistoryItem.bgColor := background c;
     QRHistoryItem.timestamp := now c |}.

Definition key (c : call) : jsstring := JS.trim (address c).

(** The data model's entry: strings of UTF-16 code units, the address
    trimmed and not empty, the timestamp an integer that a number holds
    exactly. *)
Definition codeUnits (s : jsstring) : Prop := Forall (λ c, (c < 65536)%N) s.

Definition validEntry (i : QRHistoryItem.t) : Prop :=
  codeUnits (QRHistoryItem.id i)
  ∧ codeUnits (QRHistoryItem.url i)
  ∧ QRHistoryItem.url i ≠ []
  ∧ JS.trim (QRHistoryItem.url i) = QRHistoryItem.url i
  ∧ codeUnits (QRHistoryItem.fgColor i)
  ∧ codeUnits (QRHistoryItem.bgColor i)
  ∧ (- 2 ^ 53 < QRHistoryItem.timestamp i < 2 ^ 53)%Z.

Definition validHistory (h : list QRHistoryItem.t) : Prop :=
  length h ≤ 10 ∧ Forall validEntry h.

End Store.

(** ** Sample runs *)

Module Sample.

(** A JSON text written with apostrophes for its quotation marks. *)
Definition text (s : string) : jsstring :=
  (λ c, if (c =? 0x27)%N then 0x22%N else c) <$> JS.lit s.

Definition item (id url : string) (timestamp : Z) : QRHistoryItem.t :=
  QRHistoryItem.mk (JS.lit id) (JS.lit url) (JS.lit "#000000")
    (JS.lit "#ffffff") timestamp.

(** A stored text that is not JSON. *)
Definition corrupt : jsstring := text "[{'id':'4fzyo82mv','url':".

(** A stored array of eleven entries. *)
Definition eleven : jsstring :=
  JS.lit "["
  ++ text "{'id':'a','url':'u0','fgColor':'#000000','bgColor':'#ffffff','timestamp':10},"
  ++ text "{'id':'b','url':'u1','fgColor':'#000000','bgColor':'#ffffff','timestamp':9},"
  ++ text "{'id':'c','url':'u2','fgColor':'#000000','bgColor':'#ffffff','timestamp':8},"
  ++ text "{'id':'d','url':'u3','fgColor':'#000000','bgColor':'#ffffff','timestamp':7},"
  ++ text "{'id':'e','url':'u4','fgColor':'#000000','bgColor':'#ffffff','timestamp':6},"
  ++ text "{'id':'f','url':'u5','fgColor':'#000000','bgColor':'#ffffff','timestamp':5},"
  ++ text "{'id':'g','url':'u6','fgColor':'#000000','bgColor':'#ffffff','timestamp':4},"
  ++ text "{'id':'h','url':'u7','fgColor':'#000000','bgColor':'#ffffff','timestamp':3},"
  ++ text "{'id':'i','url':'u8','fgColor':'#000000','bgColor':'#ffffff','timestamp':2},"
  ++ text "{'id':'j','url':'u9','fgColor':'#000000','bgColor':'#ffffff','timestamp':1},"
  ++ text "{'id':'k','url':'u10','fgColor':'#000000','bgColor':'#ffffff','timestamp':0}"
  ++ JS.lit "]".

Definition elevenItems : list QRHistoryItem.t :=
  [ item "a" "u0" 10; item "b" "u1" 9; item "c" "u2" 8; item "d" "u3" 7;
    item "e" "u4" 6; item "f" "u5" 5; item "g" "u6" 4; item "h" "u7" 3;
    item "i" "u8" 2; item "j" "u9" 1; item "k" "u10" 0 ].

(** A stored array with a blank address and an untrimmed one. *)
Definition untrimmed : jsstring :=
  text "[{'id':'a','url':'   ','fgColor':'#000000','bgColor':'#ffffff','timestamp':2}, {'id':'b','url':' u1 ','fgColor':'#000000','bgColor':'#ffffff','timestamp':1}]".

Definition untrimmedItems : list QRHistoryItem.t :=
  [ item "a" "   " 2; item "b" " u1 " 1 ].

Definition call_of (address random36 : string) (now : Z) : Store.call :=
  {| Store.address := JS.lit address;
     Store.foreground := JS.lit "#000000";
     Store.background := JS.lit "#ffffff";
     Store.random36 := JS.lit random36;
     Store.now := now |}.

(** Twelve exports of twelve different addresses. *)
Definition twelve : list Store.call :=
  [ call_of "https://a.example" "0.4fzyo82mvyr" 1700000000000;
    call_of " https://b.example " "0.k2j8x0q1vde" 1700000001000;
    call_of "https://c.example" "0.9d3hq7c5n2b" 1700000002000;
    call_of "https://d.example" "0.zt61mw0a8ur" 1700000003000;
    call_of "https://e.example" "0.1b7yq9x3kfe" 1700000004000;
    call_of "https://f.example" "0.r8v2c6n0p4s" 1700000005000;
    call_of "https://g.example" "0.m5k1j9h3g7f" 1700000006000;
    call_of "https://h.example" "0.w0e8r6t4y2u" 1700000007000;
    call_of "https://i.example" "0.q3a5s7d9f1g" 1700000008000;
    call_of "https://j.example" "0.l2z4x6c8v0b" 1700000009000;
    call_of "https://k.example" "0.n1m3b5v7c9x" 1700000010000;
    call_of "https://l.example" "0.p0o9i8u7y6t" 1700000011000 ]%Z.

(** Two different random draws whose renderings agree on the nine
    characters that [substr(2, 9)] keeps. *)
Definition colliding : list Store.call :=
  [ call_of "https://a.example" "0.4fzyo82mvyr" 1700000000000;
    call_of "https://b.example" "0.4fzyo82mvk3" 1700000060000 ]%Z.

End Sample.

(** ** Notions the proofs are stated with *)

Module Spec.

Local Open Scope N_scope.

(** What one [add] does to the sequence, as a function of the sequence. *)
Definition next (h : list QRHistoryItem.t) (c : Store.call)
    : list QRHistoryItem.t :=
  if bool_decide (Store.key c = []) then h
  else match h with
       | [] => [Store.entry c]
       | e :: _ =>
           if bool_decide (QRHistoryItem.url e ≠ Store.key c)
           then take 10 (Store.entry c :: h) else h
       end.

(** No call is blank and no call repeats the key of the one before it
    ([last] is the key at the head of the history the run starts from). *)
Fixpoint fresh_run (last : option jsstring) (cs : list Store.call) : Prop :=
  match cs with
  | [] => True
  | c :: cs' =>
      Store.key c ≠ [] ∧ last ≠ Some (Store.key c)
      ∧ fresh_run (Some (Store.key c)) cs'
  end.

(** The number a binary64 value is, when it is finite. *)
Definition exact (f : float) : option Q :=
  match Prim2SF f with
  | SpecFloat.S754_zero _ => Some 0%Q
  | SpecFloat.S754_finite s m e =>
      Some ((if s then -1 else 1) * inject_Z (Zpos m) * 2 ^ e)%Q
  | _ => None
  end.

(** The geometry in the words of the specification, over the rationals:
    [padding = max(20, size * 0.1)] and [total = size + 2 * padding]. *)
Definition spec_padding (size : Z) : Q :=
  Qmax 20 (inject_Z size * (1 # 10)).

Definition spec_total (size : Z) : Q :=
  (inject_Z size + 2 * spec_padding size)%Q.

(** [f] is the rational [q] up to 2^-40. *)
Definition within (f : float) (q : Q) : bool :=
  match exact f with
  | Some x => Qle_bool (Qabs (x - q)) (1 # 2 ^ 40)
  | None => false
  end.

(** The facts about the geometry that are checked size by size. *)
Definition geometry_ok (z : Z) : bool :=
  let size := JS.ofInteger z in
  (20 <=? App.padding size)%float
  && (if (z <=? 200)%Z then (App.padding size =? 20)%float
      else (App.padding size =? size * 0.1)%float)
  && (size + 40 <=? App.totalSize size)%float
  && (App.padding size + size <=? App.totalSize size)%float
  && within (App.padding size) (spec_padding z)
  && within (App.totalSize size) (spec_total z).

(** What may follow a number for it to be read whole. *)
Definition ends_number (rest : jsstring) : Prop :=
  match rest with
  | [] => True
  | c :: _ => JSON.isDigit c = false ∧ c ≠ 0x2E ∧ c ≠ 0x65 ∧ c ≠ 0x45
  end.

(** Fuel that reads a value back. *)
Fixpoint need (v : JSON.value) : nat :=
  match v with
  | JSON.Array vs => foldr (λ v r, S (need v + r)) 1%nat vs
  | JSON.Object ms => foldr (λ m r, S (S (need m.2 + r))) 1%nat ms
  | _ => 1%nat
  end.

(** The text after the first element of an array, after the first member
    of an object. *)
Fixpoint restElements (vs : list JSON.value) (rest : jsstring) : jsstring :=
  match vs with
  | [] => 0x5D :: rest
  | v :: vs' => 0x2C :: JSON.stringify v ++ restElements vs' rest
  end.

Fixpoint restMembers (ms : list (jsstring * JSON.value)) (rest : jsstring)
    : jsstring :=
  match ms with
  | [] => 0x7D :: rest
  | m :: ms' =>
      0x2C :: JSON.quote m.1 ++ 0x3A :: JSON.stringify m.2
           ++ restMembers ms' rest
  end.

(** The first character of a value: not white space, no closing bracket. *)
Definition opens (c : N) : Prop :=
  JSON.isWhiteSpace c = false ∧ c ≠ 0x5D ∧ c ≠ 0x7D.

Definition reads_back (v : JSON.value) : Prop :=
  JSON.plain v = true →
  ∀ fuel rest, (need v ≤ fuel)%nat → ends_number rest →
    JSON.parseGoal fuel JSON.AValue (JSON.stringify v ++ rest)
    = Some (v, rest).

End Spec.

Import Spec.

(** ** The session: the handlers the page wires to its controls

    One event is one run of a handler: the change handlers of the four
    inputs, [copyToClipboard] (the click, then the promise settling, then the
    timer), [clearHistory], [loadFromHistory] on a row of the list, and
    [downloadQR] behind its button. *)

Module Session.

(** What the handlers do besides the effects of [App.Effect]. *)
Inductive Output : Type :=
  | onPage (e : App.Effect)
  | writeText (text : jsstring)   (* navigator.clipboard.writeText(url) *)
  | setTimeout (ms : Z).          (* setTimeout(() => setCopied(false), ms) *)

(** The cells, the clipboard writes that have not settled yet, and the
    timers that have not fired yet. *)
Record t : Type := mk
  { cells : App.State;
    writes : nat;
    timers : nat }.

Definition start : t := mk App.initial 0 0.

Definition setCopied (b : bool) (st : App.State) : App.State :=
  App.mkState (App.url st) (App.fgColor st) (App.bgColor st) (App.size st)
    (App.history st) b.

Inductive Event : Type :=
  | changeUrl (v : jsstring)
  | changeFgColor (v : jsstring)
  | changeBgColor (v : jsstring)
  | changeSize (v : float)          (* [parseInt(e.target.value)] *)
  | clickCopy (clipboard : bool)    (* whether [navigator.clipboard] exists *)
  | clipboardSettles (ok : bool)    (* the promise resolves or rejects *)
  | timeout                         (* a timer of [copyToClipboard] fires *)
  | clickClear
  | clickEntry (i : nat)            (* the i-th row of the list *)
  | clickDownload (page : App.Page) (nowFile : Z) (random36 : jsstring)
      (nowItem : Z).

Definition failedToCopy : Output :=
  onPage (App.consoleError (JS.lit "Failed to copy!")).

Definition handle (s : t) (e : Event) : t * list Output :=
  match e with
  | changeUrl v => (mk (App.setUrl v (cells s)) (writes s) (timers s), [])
  | changeFgColor v =>
      (mk (App.setFgColor v (cells s)) (writes s) (timers s), [])
  | changeBgColor v =>
      (mk (App.setBgColor v (cells s)) (writes s) (timers s), [])
  | changeSize v => (mk (App.setSize v (cells s)) (writes s) (timers s), [])
  | clickCopy clipboard =>
      (* without [navigator.clipboard] the call throws inside the [try] *)
      if clipboard
      then (mk (cells s) (S (writes s)) (timers s),
            [writeText (App.url (cells s))])
      else (s, [failedToCopy])
  | clipboardSettles ok =>
      match writes s with
      | O => (s, [])
      | S w =>
          if ok
          then (mk (setCopied true (cells s)) w (S (timers s)),
                [setTimeout 2000])
          else (mk (cells s) w (timers s), [failedToCopy])
      end
  | timeout =>
      match timers s with
      | O => (s, [])
      | S k => (mk (setCopied false (cells s)) (writes s) k, [])
      end
  | clickClear =>
      (* the button is rendered when [history.length > 0] *)
      match App.history (cells s) with
      | [] => (s, [])
      | _ :: _ => (mk (App.clearHistory (cells s)) (writes s) (timers s), [])
      end
  | clickEntry i =>
      match App.history (cells s) !! i with
      | Some item =>
          (mk (App.loadFromHistory item (cells s)) (writes s) (timers s), [])
      | None => (s, [])
      end
  | clickDownload page nowFile random36 nowItem =>
      let '(st, out) :=
        App.clickDownload page (cells s) nowFile random36 nowItem in
      (mk st (writes s) (timers s), onPage <$> out)
  end.

(** A run of events, with everything it put out, in order. *)
Fixpoint run (es : list Event) (s : t) : t * list Output :=
  match es with
  | [] => (s, [])
  | e :: es' =>
      let '(s1, out1) := handle s e in
      let '(s2, out2) := run es' s1 in
      (s2, out1 ++ out2)
  end.

(** What the preview encodes: [value={url || ' '}]. *)
Definition qrValue (st : App.State) : jsstring :=
  if JS.falsy (App.url st) then JS.lit " " else App.url st.

(** The text the second effect has written once the page has settled. *)
Definition stored (s : t) : jsstring :=
  App.saveEffect (App.historyValue (App.history (cells s))).

End Session.

(** ** Notions the further properties are stated with *)

Module Shape.

(** An entry as [addToHistory] makes them: the address trimmed, not empty. *)
Definition trimmedEntry (e : QRHistoryItem.t) : Prop :=
  QRHistoryItem.url e ≠ [] ∧ JS.trim (QRHistoryItem.url e) = QRHistoryItem.url e.

(** No entry has the address of the entry right after it. *)
Fixpoint distinctNeighbours (h : list QRHistoryItem.t) : Prop :=
  match h with
  | e1 :: (e2 :: _) as rest =>
      QRHistoryItem.url e1 ≠ QRHistoryItem.url e2 ∧ distinctNeighbours rest
  | _ => True
  end.

Definition wellFormed (h : list QRHistoryItem.t) : Prop :=
  length h ≤ 10 ∧ Forall trimmedEntry h ∧ distinctNeighbours h.



(** The events other than the export and the clearing of the list. *)
Definition quiet (e : Session.Event) : bool :=
  match e with
  | Session.clickDownload _ _ _ _ | Session.clickClear => false
  | _ => true
  end.

Definition isDownload (o : Session.Output) : bool :=
  match o with
  | Session.onPage (App.download _) => true
  | _ => false
  end.

(** The files a run has downloaded. *)
Definition downloads (out : list Session.Output) : nat :=
  length (filter (λ o, isDownload o = true) out).

(** The region a corner of radius [r] leaves outside the rounded rectangle,
    in the coordinates of that corner: the points below the quadratic curve
    from [(0, r)] to [(r, 0)] with control point [(0, 0)], whose points are
    [(t^2 r, (1 - t)^2 r)]. *)
Definition cutOff (r x y : Q) : Prop :=
  ∃ t : Q, (0 <= t)%Q ∧ (t <= 1)%Q
           ∧ (x < t * t * r)%Q ∧ (y < (1 - t) * (1 - t) * r)%Q.

(** What is checked of the geometry at one size: the symbol leaves a margin
    of a quarter of the radius on every side, it fits a canvas whose side
    has lost its fraction, and the corners do not meet. *)
Definition symbol_ok (z : Z) : bool :=
  let size := JS.ofInteger z in
  match Spec.exact (App.padding size), Spec.exact size,
        Spec.exact (App.totalSize size),
        Spec.exact (App.totalSize size * 0.1) with
  | Some p, Some s, Some T, Some r =>
      Qle_bool 0 r && Qle_bool r (4 * p)
      && Qle_bool (r + 4 * (p + s)) (4 * T)
      && Qle_bool (p + s + 1) T
      && Qle_bool (2 * r) T
      && Qeq_bool s (inject_Z z)
  | _, _, _, _ => false
  end.

End Shape.

(** ** A sample session *)

Module Tour.

Definition ready : App.Page := App.mkPage true true.

(** Type an address, export it, export it again, pick a colour, export a
    second address, copy, select the older row and export it once more, with
    the clipboard settling and the timer firing in between. *)
Definition events : list Session.Event :=
  [ Session.changeUrl (JS.lit " https://a.example ");
    Session.clickDownload ready 1700000000000 (JS.lit "0.4fzyo82mvyr")
      1700000000001;
    Session.clickDownload ready 1700000001000 (JS.lit "0.k2j8x0q1vde")
      1700000001001;
    Session.changeFgColor (JS.lit "#112233");
    Session.changeUrl (JS.lit "https://b.example");
    Session.changeSize 128;
    Session.clickDownload ready 1700000002000 (JS.lit "0.9d3hq7c5n2b")
      1700000002001;
    Session.clickCopy true;
    Session.clipboardSettles true;
    Session.clickEntry 1;
    Session.clickDownload ready 1700000003000 (JS.lit "0.zt61mw0a8ur")
      1700000003001;
    Session.timeout;
    Session.changeUrl (JS.lit "   ");
    Session.clickDownload ready 1700000004000 (JS.lit "0.1b7yq9x3kfe")
      1700000004001 ]%Z.

(** A session whose history was hydrated from eleven stored entries. *)
Definition overlong : App.State :=
  App.setUrl (JS.lit "https://new.example")
    (App.setHistory (λ _, Sample.elevenItems) App.initial).

End Tour.

(** * Properties of the history store *)

Section HistoryStore.

Implicit Types (st : App.State) (c : Store.call) (cs : list Store.call).
Implicit Types (h : list QRHistoryItem.t).

(** The guard [!url || url.trim() === ''] is the test [trim url = ""]. *)
Lemma blank_guard (s : jsstring) :
  JS.falsy s || bool_decide (JS.trim s = []) = bool_decide (JS.trim s = []).
Proof. destruct s; reflexivity. Qed.

Lemma history_setHistory f st :
  App.history (App.setHistory f st) = f (App.history st).
Proof. reflexivity. Qed.

Lemma history_configure c st :
  App.history (Store.configure c st) = App.history st.
Proof. reflexivity. Qed.

Lemma add_history st c :
  App.history (Store.add st c) = next (App.history st) c.
Proof.
  unfold Store.add, App.addToHistory, next. rewrite blank_guard.
  change (App.url (Store.configure c st)) with (Store.address c).
  change (App.newItem (Store.configure c st) _ _) with (Store.entry c).
  change (QRHistoryItem.url (Store.entry c)) with (Store.key c).
  change (JS.trim (Store.address c)) with (Store.key c).
  rewrite history_configure.
  destruct (bool_decide (Store.key c = [])); [apply history_configure|].
  destruct (App.history st) as [|e h] eqn:E.
  - by rewrite history_setHistory, history_configure, E.
  - destruct (bool_decide (QRHistoryItem.url e ≠ Store.key c)).
    + by rewrite history_setHistory, history_configure, E.
    + by rewrite history_configure.
Qed.

Lemma adds_history cs st :
  App.history (Store.adds cs st) = foldl next (App.history st) cs.
Proof.
  revert st. induction cs as [|c cs IH]; intros st; [done|].
  cbn. unfold Store.adds in IH. rewrite IH, add_history. done.
Qed.

Lemma take_app_take {A} (n : nat) (l k : list A) :
  take n (l ++ take n k) = take n (l ++ k).
Proof. rewrite !take_app, take_take. do 2 f_equal. lia. Qed.

Lemma next_length h c : length h ≤ 10 → length (next h c) ≤ 10.
Proof.
  intros Hh. unfold next. repeat case_match; try done.
  - cbn. lia.
  - rewrite length_take. lia.
Qed.

Lemma next_fresh h c :
  Store.key c ≠ [] → QRHistoryItem.url <$> head h ≠ Some (Store.key c) →
  next h c = take 10 (Store.entry c :: h).
Proof.
  intros Hk Hl. unfold next. rewrite bool_decide_eq_false_2 by done.
  destruct h as [|e h]; [done|]. cbn in Hl.
  rewrite bool_decide_eq_true_2; [done|congruence].
Qed.

Lemma foldl_next_fresh cs h :
  length h ≤ 10 → fresh_run (QRHistoryItem.url <$> head h) cs →
  foldl next h cs = take 10 (reverse (Store.entry <$> cs) ++ h).
Proof.
  revert h. induction cs as [|c cs IH]; intros h Hh Hf.
  - cbn. by rewrite take_ge.
  - destruct Hf as (Hk & Hl & Hf). cbn [foldl].
    rewrite (next_fresh h c Hk Hl), IH.
    + rewrite fmap_cons, reverse_cons, <- app_assoc. cbn [app].
      apply take_app_take.
    + rewrite length_take. lia.
    + exact Hf.
Qed.

Lemma NoDup_fresh_run cs last :
  Forall (λ c, Store.key c ≠ []) cs → NoDup (Store.key <$> cs) →
  last ≠ (Store.key <$> head cs) ∨ cs = [] → fresh_run last cs.
Proof.
  revert last. induction cs as [|c cs IH]; intros last Hb Hn Hl; [done|].
  apply Forall_cons in Hb as [Hc Hb]. rewrite fmap_cons in Hn.
  apply NoDup_cons in Hn as [Hc' Hn]. cbn. split_and!; [done| |].
  - destruct Hl as [Hl|]; done.
  - apply IH; [done..|]. destruct cs as [|c' cs]; [by right|left].
    cbn. intros [= E]. apply Hc'. rewrite E. cbn. left.
Qed.

Lemma next_sublist h c : next h c `sublist_of` Store.entry c :: h.
Proof.
  unfold next. repeat case_match; subst.
  - by apply sublist_cons.
  - done.
  - apply sublist_take.
  - by apply sublist_cons.
Qed.

Lemma foldl_next_sublist cs h :
  foldl next h cs `sublist_of` reverse (Store.entry <$> cs) ++ h.
Proof.
  revert h. induction cs as [|c cs IH]; intros h; [done|].
  cbn [foldl]. etrans; [apply IH|].
  rewrite fmap_cons, reverse_cons, <- app_assoc. cbn [app].
  apply sublist_app; [done|apply next_sublist].
Qed.

(** After a non-blank [add] the head of the history carries its key. *)
Lemma next_head h c :
  Store.key c ≠ [] →
  QRHistoryItem.url <$> head (next h c) = Some (Store.key c).
Proof.
  intros Hk. unfold next. rewrite bool_decide_eq_false_2 by done.
  destruct h as [|e h]; [done|]. case_bool_decide as He; [done|].
  cbn. f_equal. by destruct (decide (QRHistoryItem.url e = Store.key c)).
Qed.

Lemma next_same_head h c :
  QRHistoryItem.url <$> head h = Some (Store.key c) → next h c = h.
Proof.
  intros Hh. unfold next. case_bool_decide; [done|].
  destruct h as [|e h]; [done|]. cbn in Hh.
  rewrite bool_decide_eq_false_2; [done|]. intros Hne. congruence.
Qed.

End HistoryStore.

(** * The claims about the history store *)

(** C1. From an empty history, adds whose trimmed addresses are non-blank and
    pairwise distinct leave the entries of the calls most recent first, cut
    to the ten most recent: the history has [min (calls) 10] entries, the
    i-th most recent call is at index i-1, and a call's entry is still there
    exactly when fewer than ten calls followed it out of the last ten. *)
Theorem adds_distinct_most_recent_first (cs : list Store.call) (st : App.State) :
  App.history st = [] →
  Forall (λ c, Store.key c ≠ []) cs →
  NoDup (Store.key <$> cs) →
  App.history (Store.adds cs st) = take 10 (reverse (Store.entry <$> cs))
  ∧ length (App.history (Store.adds cs st)) = length cs `min` 10
  ∧ (∀ i c, i < length cs `min` 10 → cs !! (length cs - 1 - i) = Some c →
       App.history (Store.adds cs st) !! i = Some (Store.entry c))
  ∧ (∀ j c, cs !! j = Some c →
       Store.entry c ∈ App.history (Store.adds cs st) ↔ length cs ≤ j + 10).
Proof.
  intros Hst Hb Hn.
  assert (E : App.history (Store.adds cs st)
              = take 10 (reverse (Store.entry <$> cs))).
  { rewrite adds_history, Hst, foldl_next_fresh, app_nil_r; [done|cbn; lia|].
    apply NoDup_fresh_run; [done..|]. destruct cs; [by right|by left]. }
  assert (L : ∀ i c, i < length cs `min` 10 →
            cs !! (length cs - 1 - i) = Some c →
            App.history (Store.adds cs st) !! i = Some (Store.entry c)).
  { intros i c Hi Hc. rewrite E, lookup_take_lt by lia.
    rewrite reverse_lookup by (rewrite length_fmap; lia).
    rewrite length_fmap, list_lookup_fmap.
    replace (length cs - S i) with (length cs - 1 - i) by lia.
    by rewrite Hc. }
  split_and!; [done| |done|].
  - rewrite E, length_take, length_reverse, length_fmap. lia.
  - intros j c Hj. pose proof (lookup_lt_Some _ _ _ Hj) as Hlt. split.
    + intros [i Hi]%list_elem_of_lookup_1.
      pose proof (lookup_lt_Some _ _ _ Hi) as Hil.
      rewrite E, length_take, length_reverse, length_fmap in Hil.
      rewrite E, lookup_take_lt in Hi by lia.
      rewrite reverse_lookup in Hi by (rewrite length_fmap; lia).
      rewrite length_fmap, list_lookup_fmap in Hi.
      destruct (cs !! (length cs - S i)) as [c'|] eqn:Hc'; [|done].
      injection Hi as _ Hk _ _ _.
      assert (j = length cs - S i); [|lia].
      eapply (NoDup_lookup _ _ _ (Store.key c) Hn).
      * by rewrite list_lookup_fmap, Hj.
      * rewrite list_lookup_fmap, Hc'. cbn. f_equal.
        exact Hk.
    + intros Hle. apply (list_elem_of_lookup_2 _ (length cs - 1 - j)).
      apply L; [lia|]. by replace (length cs - 1 - (length cs - 1 - j)) with j
        by lia.
Qed.

Lemma adds_distinct_most_recent_first_witness :
  App.history (Store.adds Sample.twelve App.initial)
    = take 10 (reverse (Store.entry <$> Sample.twelve))
  ∧ length (App.history (Store.adds Sample.twelve App.initial)) = 10.
Proof.
  destruct (adds_distinct_most_recent_first Sample.twelve App.initial)
    as (E & L & _).
  - reflexivity.
  - apply (bool_decide_unpack _). vm_compute. exact I.
  - apply (bool_decide_unpack _). vm_compute. exact I.
  - split; [exact E|exact L].
Defined.

(** C2. When the head entry already carries the trimmed address, [add] does
    nothing at all: the state it returns is the state it was given (no entry
    prepended or removed, the head's timestamp untouched).  In particular two
    adds in a row of one address, from an empty history, leave one entry. *)
Theorem add_same_head_is_noop :
  (∀ (st : App.State) (random36 : jsstring) (now : Z) e h,
     App.history st = e :: h →
     QRHistoryItem.url e = JS.trim (App.url st) →
     App.addToHistory st random36 now = st)
  ∧ (∀ (st : App.State) (c1 c2 : Store.call),
       App.history st = [] →
       Store.address c1 = Store.address c2 →
       JS.trim (Store.address c1) ≠ [] →
       App.history (Store.add (Store.add st c1) c2) = [Store.entry c1]
       ∧ length (App.history (Store.add (Store.add st c1) c2)) = 1).
Proof.
  split.
  - intros st r n e h Hh He. unfold App.addToHistory. rewrite Hh.
    destruct (JS.falsy (App.url st) || bool_decide (JS.trim (App.url st) = []));
      [done|].
    rewrite bool_decide_eq_false_2; [done|].
    intros Hne. apply Hne. exact He.
  - intros st c1 c2 Hst Ha Hk.
    assert (E : App.history (Store.add (Store.add st c1) c2)
                = [Store.entry c1]); [|by rewrite E].
    rewrite !add_history, Hst.
    rewrite (next_same_head (next [] c1) c2).
    + unfold next. by rewrite bool_decide_eq_false_2.
    + unfold Store.key. rewrite <- Ha. by apply next_head.
Qed.

Lemma add_same_head_is_noop_witness :
  App.addToHistory (Store.add App.initial (Sample.call_of "https://a.example" "0.4fzyo82mvyr" 1700000000000))
      (JS.lit "0.k2j8x0q1vde") 1700000001000
    = Store.add App.initial (Sample.call_of "https://a.example" "0.4fzyo82mvyr" 1700000000000)
  ∧ length (App.history
      (Store.add
         (Store.add App.initial (Sample.call_of "https://a.example" "0.4fzyo82mvyr" 1700000000000))
         (Sample.call_of "https://a.example" "0.k2j8x0q1vde" 1700000001000))) = 1.
Proof.
  split.
  - eapply (proj1 add_same_head_is_noop); [reflexivity|].
    vm_compute. reflexivity.
  - apply (proj2 add_same_head_is_noop); [reflexivity|reflexivity|].
    vm_compute. discriminate.
Defined.

(** C3. An address that is empty after trimming is never recorded: [add]
    returns the state unchanged (it has no failing path), in particular for
    the addresses [""] and ["   "]. *)
Theorem add_blank_is_noop :
  (∀ (st : App.State) (random36 : jsstring) (now : Z),
     JS.trim (App.url st) = [] → App.addToHistory st random36 now = st)
  ∧ (∀ (st : App.State) (random36 : jsstring) (now : Z),
       App.history
         (App.addToHistory (App.setUrl (JS.lit "") st) random36 now)
       = App.history st
       ∧ App.history
           (App.addToHistory (App.setUrl (JS.lit "   ") st) random36 now)
         = App.history st).
Proof.
  split.
  - intros st r n Hb. unfold App.addToHistory.
    by rewrite blank_guard, bool_decide_eq_true_2.
  - intros st r n. split; reflexivity.
Qed.

Lemma add_blank_is_noop_witness :
  let st := App.setUrl (JS.lit "   ")
              (Store.adds Sample.twelve App.initial) in
  App.addToHistory st (JS.lit "0.4fzyo82mvyr") 1700000000000 = st.
Proof.
  apply (proj1 add_blank_is_noop). vm_compute. reflexivity.
Defined.

(** C10. The duplicate test compares trimmed with trimmed: when two
    addresses agree after trimming (and are not blank), the second of two
    adds in a row changes nothing, whatever the raw strings are; from an
    empty history the two adds leave the single entry of the first. *)
Theorem add_trim_equal_suppressed (st : App.State) (c1 c2 : Store.call) :
  JS.trim (Store.address c1) = JS.trim (Store.address c2) →
  JS.trim (Store.address c1) ≠ [] →
  App.history (Store.add (Store.add st c1) c2)
    = App.history (Store.add st c1)
  ∧ (App.history st = [] →
     App.history (Store.add (Store.add st c1) c2) = [Store.entry c1]).
Proof.
  intros Ht Hk.
  assert (E : App.history (Store.add (Store.add st c1) c2)
              = App.history (Store.add st c1)).
  { rewrite !add_history. apply next_same_head.
    unfold Store.key. rewrite <- Ht. by apply next_head. }
  split; [done|]. intros Hst. rewrite E, add_history, Hst.
  unfold next. by rewrite bool_decide_eq_false_2.
Qed.

Lemma add_trim_equal_suppressed_witness :
  App.history
    (Store.add (Store.add App.initial (Sample.call_of "x" "0.4fzyo82mvyr" 1700000000000))
       (Sample.call_of "  x  " "0.k2j8x0q1vde" 1700000001000))
  = [Store.entry (Sample.call_of "x" "0.4fzyo82mvyr" 1700000000000)].
Proof.
  apply add_trim_equal_suppressed.
  - vm_compute. reflexivity.
  - vm_compute. discriminate.
  - reflexivity.
Defined.

(** C8 (as the code has it). The identifier is nine characters of a random
    draw and nothing checks it against the entries already stored: the ids
    of a history built by adds from the empty history are pairwise distinct
    whenever the identifiers drawn for those adds are. *)
Theorem ids_distinct_when_draws_distinct (cs : list Store.call) (st : App.State) :
  App.history st = [] →
  NoDup ((λ c, App.newId (Store.random36 c)) <$> cs) →
  NoDup (QRHistoryItem.id <$> App.history (Store.adds cs st)).
Proof.
  intros Hst Hn. rewrite adds_history, Hst.
  eapply sublist_NoDup; [|apply fmap_sublist, foldl_next_sublist].
  rewrite app_nil_r, fmap_reverse, <- list_fmap_compose.
  by rewrite reverse_Permutation.
Qed.

Lemma ids_distinct_when_draws_distinct_witness :
  NoDup (QRHistoryItem.id <$> App.history (Store.adds Sample.twelve App.initial)).
Proof.
  apply ids_distinct_when_draws_distinct; [reflexivity|].
  apply (bool_decide_unpack _). vm_compute. exact I.
Defined.

(** C8 fails as stated: two exports of different addresses whose random
    draws share their first nine base-36 digits get the same id. *)
Lemma ids_can_collide :
  (∀ c, c ∈ Sample.colliding → Store.key c ≠ [])
  ∧ NoDup (Store.random36 <$> Sample.colliding)
  ∧ ¬ NoDup (QRHistoryItem.id
               <$> App.history (Store.adds Sample.colliding App.initial)).
Proof.
  split_and!.
  - apply Forall_forall. apply (bool_decide_unpack _). vm_compute. exact I.
  - apply (bool_decide_unpack _). vm_compute. exact I.
  - apply (bool_decide_unpack _). vm_compute. exact I.
Qed.

(** * The claims about the export composer *)

Section Composer.

Local Open Scope float_scope.

(** A property of the sizes, checked on each of them. *)
Lemma sizes_checked (P : Z → bool) :
  forallb P (seqZ 128 385) = true →
  ∀ z, (128 ≤ z ≤ 512)%Z → P z = true.
Proof.
  intros Hall z Hz. apply Is_true_true, forallb_True in Hall.
  rewrite Forall_forall in Hall. apply Is_true_true, Hall.
  apply elem_of_seqZ. lia.
Qed.

End Composer.

(** C7. For a size of the slider's range the composer takes
    [padding = max(20, size * 0.1)] and gives both sides of the canvas
    [total = size + 2 * padding]; the symbol is drawn last, at
    [(padding, padding)], [size] by [size].  The padding is 20 up to size
    200 and [size * 0.1] above; as binary64 numbers, padding and total are
    within 2^-40 of the rationals the two formulas denote.  At size 128 the
    padding is 20 and the side 168, at size 256 they are the numbers 25.6
    and 307.2. *)
Theorem export_geometry (z : Z) (bg : jsstring) :
  (128 ≤ z ≤ 512)%Z →
  let size := JS.ofInteger z in
  App.padding size = JS.Math_max 20 (size * 0.1)
  ∧ App.totalSize size = (size + App.padding size * 2)%float
  ∧ head (App.compose size bg)
    = Some (App.createCanvas (App.totalSize size) (App.totalSize size))
  ∧ last (App.compose size bg)
    = Some (App.context
              (App.drawImage (App.padding size) (App.padding size) size size))
  ∧ (∀ page st nowFile random36 nowItem,
       App.qrCanvas page = true → App.context2d page = true →
       App.size st = size → App.bgColor st = bg →
       (App.clickDownload page (App.setUrl (JS.lit "https://example.com") st)
          nowFile random36 nowItem).2
       = App.compose size bg ++ [App.download (App.filename nowFile)])
  ∧ ((z ≤ 200)%Z → (App.padding size =? 20)%float = true)
  ∧ ((200 < z)%Z → (App.padding size =? size * 0.1)%float = true)
  ∧ within (App.padding size) (spec_padding z) = true
  ∧ within (App.totalSize size) (spec_total z) = true
  ∧ App.padding 128 = 20%float ∧ App.totalSize 128 = 168%float
  ∧ App.padding 256 = 25.6%float ∧ App.totalSize 256 = 307.2%float.
Proof.
  intros Hz size.
  assert (G : geometry_ok z = true).
  { clear size. revert z Hz. apply sizes_checked. vm_compute. reflexivity. }
  unfold geometry_ok in G. fold size in G.
  apply andb_true_iff in G as [G Gt]. apply andb_true_iff in G as [G Gp].
  apply andb_true_iff in G as [G _]. apply andb_true_iff in G as [G _].
  apply andb_true_iff in G as [_ G].
  split_and!; try reflexivity; try done.
  - intros [q c] st nf r ni Hq Hc Hs Hb. cbn in Hq, Hc. subst q c.
    unfold App.clickDownload, App.downloadQR. cbn -[App.compose App.filename].
    by rewrite Hs, Hb.
  - intros Hle. by rewrite (proj2 (Z.leb_le z 200)) in G.
  - intros Hgt. by rewrite (proj2 (Z.leb_gt z 200)) in G.
Qed.

Lemma export_geometry_witness :
  App.padding (JS.ofInteger 256) = 25.6%float
  ∧ App.totalSize (JS.ofInteger 256) = 307.2%float
  ∧ last (App.compose (JS.ofInteger 256) (JS.lit "#ffffff"))
    = Some (App.context (App.drawImage 25.6 25.6 256 256)).
Proof.
  destruct (export_geometry 256 (JS.lit "#ffffff")) as (_ & _ & _ & L & _);
    [lia|].
  split_and!; [vm_compute; reflexivity..|].
  rewrite L. vm_compute. reflexivity.
Defined.

(** C4 (as the code has it). The button is disabled by [!url], the empty
    string only: then a click composes nothing, downloads nothing and
    records nothing.  An address of white space alone is not empty: the
    click composes the canvas and downloads the file, and it is
    [addToHistory] that declines to record it. *)
Theorem export_disabled_when_empty_only :
  (∀ page st nowFile random36 nowItem,
     App.url st = [] →
     App.clickDownload page st nowFile random36 nowItem = (st, []))
  ∧ (∀ page st nowFile random36 nowItem,
       JS.trim (App.url st) = [] →
       (App.clickDownload page st nowFile random36 nowItem).1 = st)
  ∧ (∀ st nowFile random36 nowItem,
       App.url st ≠ [] → JS.trim (App.url st) = [] →
       App.clickDownload (App.mkPage true true) st nowFile random36 nowItem
       = (st, App.compose (App.size st) (App.bgColor st)
              ++ [App.download (App.filename nowFile)])).
Proof.
  assert (B : ∀ st r n, JS.trim (App.url st) = [] →
                        App.addToHistory st r n = st).
  { intros st r n Hb. unfold App.addToHistory.
    by rewrite blank_guard, bool_decide_eq_true_2. }
  split_and!.
  - intros page st nf r ni Hu. unfold App.clickDownload. by rewrite Hu.
  - intros [q c] st nf r ni Hb. unfold App.clickDownload, App.downloadQR.
    destruct (JS.falsy (App.url st)), q, c; cbn [fst]; try done.
    cbn. by apply B.
  - intros st nf r ni Hu Hb. unfold App.clickDownload, App.downloadQR.
    destruct (App.url st) as [|c u] eqn:E; [done|]. cbn [JS.falsy].
    cbn [App.qrCanvas App.context2d]. rewrite B; [done|by rewrite E].
Qed.

Lemma export_disabled_when_empty_only_witness :
  App.clickDownload (App.mkPage true true) (App.setUrl (JS.lit "") App.initial)
    1700000000000 (JS.lit "0.4fzyo82mvyr") 1700000000001
  = (App.setUrl (JS.lit "") App.initial, [])
  ∧ (App.clickDownload (App.mkPage true true)
       (App.setUrl (JS.lit "   ") App.initial)
       1700000000000 (JS.lit "0.4fzyo82mvyr") 1700000000001).2
    = App.compose 256 (JS.lit "#ffffff")
      ++ [App.download (JS.lit "qr-code-1700000000000.png")].
Proof.
  split.
  - apply (proj1 export_disabled_when_empty_only). reflexivity.
  - rewrite (proj2 (proj2 export_disabled_when_empty_only)).
    + reflexivity.
    + vm_compute. discriminate.
    + vm_compute. reflexivity.
Defined.

(** C4 fails as stated: with three spaces for an address the click still
    composes the canvas and downloads a file. *)
Lemma export_of_blank_address_downloads :
  let st := App.setUrl (JS.lit "   ") App.initial in
  JS.trim (App.url st) = []
  ∧ App.download (JS.lit "qr-code-1700000000000.png")
    ∈ (App.clickDownload (App.mkPage true true) st
         1700000000000 (JS.lit "0.4fzyo82mvyr") 1700000000001).2
  ∧ App.createCanvas 307.2 307.2
    ∈ (App.clickDownload (App.mkPage true true) st
         1700000000000 (JS.lit "0.4fzyo82mvyr") 1700000000001).2.
Proof.
  split_and!.
  - vm_compute. reflexivity.
  - vm_compute. do 15 apply list_elem_of_further. apply list_elem_of_here.
  - vm_compute. apply list_elem_of_here.
Qed.

(** * [JSON.parse] reads back what [JSON.stringify] writes *)

Section Strings.

Local Open Scope N_scope.

Lemma hexValue_hexDigit (d : N) :
  d < 16 → JSON.hexValue (JSON.hexDigit d) = Some d.
Proof.
  intros Hd. unfold JSON.hexDigit, JSON.hexValue.
  destruct (N.ltb_spec d 10).
  - rewrite (proj2 (N.leb_le 48 (48 + d))) by lia.
    rewrite (proj2 (N.leb_le (48 + d) 57)) by lia.
    cbn [andb]. f_equal. lia.
  - rewrite (proj2 (N.leb_le 48 (87 + d))) by lia.
    rewrite (proj2 (N.leb_gt (87 + d) 57)) by lia.
    rewrite (proj2 (N.leb_le 97 (87 + d))) by lia.
    rewrite (proj2 (N.leb_le (87 + d) 102)) by lia.
    cbn [andb]. f_equal. lia.
Qed.

Lemma hex4_value (c : N) :
  c < 65536 →
  ((c / 4096 mod 16 * 16 + c / 256 mod 16) * 16 + c / 16 mod 16) * 16
  + c mod 16 = c.
Proof.
  intros Hc.
  pose proof (N.div_mod c 16 ltac:(lia)).
  pose proof (N.div_mod (c / 16) 16 ltac:(lia)).
  pose proof (N.div_mod (c / 16 / 16) 16 ltac:(lia)).
  pose proof (N.mod_lt c 16 ltac:(lia)).
  pose proof (N.mod_lt (c / 16) 16 ltac:(lia)).
  pose proof (N.mod_lt (c / 16 / 16) 16 ltac:(lia)).
  replace (c / 256) with (c / 16 / 16) by (by rewrite N.Div0.div_div).
  replace (c / 4096) with (c / 16 / 16 / 16)
    by (by rewrite !N.Div0.div_div).
  assert (c / 16 / 16 / 16 < 16).
  { rewrite !N.Div0.div_div. apply N.Div0.div_lt_upper_bound. lia. }
  rewrite (N.mod_small (c / 16 / 16 / 16) 16) by done.
  lia.
Qed.

Lemma readString_unicodeEscape (c : N) (tail : jsstring) :
  c < 65536 →
  JSON.readString (JSON.unicodeEscape c ++ tail)
  = '(str, rest) ← JSON.readString tail; Some (c :: str, rest).
Proof.
  intros Hc. unfold JSON.unicodeEscape. cbn [app JSON.readString].
  change (0x5C =? 0x22) with false. change (0x5C =? 0x5C) with true.
  change (0x75 =? 0x75) with true. cbn match.
  rewrite !hexValue_hexDigit by (apply N.mod_lt; lia).
  cbn [mbind option_bind]. by rewrite hex4_value.
Qed.

(** A code unit that is copied is read as itself. *)
Lemma readString_verbatim (c : N) (tail : jsstring) :
  c ≠ 0x22 → c ≠ 0x5C → 0x20 ≤ c →
  JSON.readString (c :: tail)
  = '(str, rest) ← JSON.readString tail; Some (c :: str, rest).
Proof.
  intros Hq Hb Hc. cbn [JSON.readString].
  rewrite (proj2 (N.eqb_neq c 0x22)), (proj2 (N.eqb_neq c 0x5C)) by done.
  by rewrite (proj2 (N.ltb_ge c 0x20)).
Qed.

Lemma readString_quoteUnit (c : N) (tail : jsstring) :
  JSON.readString (JSON.quoteUnit c ++ tail)
  = '(str, rest) ← JSON.readString tail; Some (c :: str, rest).
Proof.
  unfold JSON.quoteUnit.
  repeat match goal with
         | |- context [if ?x =? ?y then _ else _] =>
             destruct (N.eqb_spec x y) as [->|?]; [reflexivity|]
         end.
  destruct (_ || _) eqn:E.
  - apply readString_unicodeEscape.
    unfold JSON.isLeadSurrogate, JSON.isTrailSurrogate in E.
    apply orb_true_iff in E as [[E%N.ltb_lt|E]%orb_true_iff|E];
      [lia|apply andb_true_iff in E as [_ E%N.leb_le]; lia..].
  - apply orb_false_iff in E as [[E%N.ltb_ge _]%orb_false_iff _].
    by apply readString_verbatim.
Qed.

Lemma readString_pair (c d : N) (tail : jsstring) :
  JSON.isLeadSurrogate c = true → JSON.isTrailSurrogate d = true →
  JSON.readString (c :: d :: tail)
  = '(str, rest) ← JSON.readString tail; Some (c :: d :: str, rest).
Proof.
  unfold JSON.isLeadSurrogate, JSON.isTrailSurrogate.
  intros [Hc _]%andb_true_iff [Hd _]%andb_true_iff.
  apply N.leb_le in Hc, Hd. rewrite !readString_verbatim by lia.
  by destruct (JSON.readString tail) as [[??]|].
Qed.

Lemma quoteBody_cons (c : N) (r : jsstring) :
  JSON.quoteBody (c :: r)
  = if JSON.isLeadSurrogate c then
      match r with
      | d :: r' =>
          if JSON.isTrailSurrogate d then c :: d :: JSON.quoteBody r'
          else JSON.quoteUnit c ++ JSON.quoteBody r
      | [] => JSON.quoteUnit c
      end
    else JSON.quoteUnit c ++ JSON.quoteBody r.
Proof. reflexivity. Qed.

Lemma readString_quoteBody (s rest : jsstring) :
  JSON.readString (JSON.quoteBody s ++ 0x22 :: rest) = Some (s, rest).
Proof.
  remember (length s) as n eqn:Hn. revert s Hn.
  induction n as [n IH] using lt_wf_ind. intros s ->.
  destruct s as [|c [|d s]].
  - reflexivity.
  - cbn [JSON.quoteBody].
    destruct (JSON.isLeadSurrogate c);
      rewrite <- ?app_assoc, readString_quoteUnit; reflexivity.
  - rewrite quoteBody_cons. destruct (JSON.isLeadSurrogate c) eqn:Ec.
    + destruct (JSON.isTrailSurrogate d) eqn:Ed.
      * cbn [app]. rewrite readString_pair by done.
        by rewrite (IH (length s)) by (cbn; lia || done).
      * rewrite <- app_assoc, readString_quoteUnit.
        by rewrite (IH (length (d :: s))) by (cbn; lia || done).
    + rewrite <- app_assoc, readString_quoteUnit.
      by rewrite (IH (length (d :: s))) by (cbn; lia || done).
Qed.

Lemma readString_quote (s rest : jsstring) :
  ∃ tail, JSON.quote s ++ rest = 0x22 :: tail
          ∧ JSON.readString tail = Some (s, rest).
Proof.
  exists (JSON.quoteBody s ++ 0x22 :: rest). split.
  - unfold JSON.quote. cbn. by rewrite <- app_assoc.
  - apply readString_quoteBody.
Qed.

End Strings.

Section Numbers.

Local Open Scope N_scope.

Lemma digits_isDigit (d : Decimal.uint) :
  Forall (λ c, JSON.isDigit c = true) (JS.digits d).
Proof. induction d; cbn [JS.digits]; constructor; done. Qed.

Lemma digitsValue_digits (d : Decimal.uint) :
  JSON.digitsValue (JS.digits d) = d.
Proof. induction d; cbn [JS.digits JSON.digitsValue]; [done|..]; by rewrite IHd. Qed.

Lemma spanDigits_app (ds rest : jsstring) :
  Forall (λ c, JSON.isDigit c = true) ds → ends_number rest →
  JSON.spanDigits (ds ++ rest) = (ds, rest).
Proof.
  intros Hds Hr. induction Hds as [|c ds Hc _ IH]; cbn [app].
  - destruct rest as [|c r]; [done|]. destruct Hr as [Hc _].
    cbn [JSON.spanDigits]. by rewrite Hc.
  - cbn [JSON.spanDigits]. by rewrite Hc, IH.
Qed.

(** The decimal of a positive number starts with a digit that is not 0. *)
Lemma to_uint_head (p : positive) :
  ∃ c r, JS.digits (Pos.to_uint p) = c :: r
         ∧ JSON.isDigit c = true ∧ c ≠ 48.
Proof.
  pose proof (DecimalPos.Unsigned.to_uint_nonzero p) as Hz.
  pose proof (DecimalPos.Unsigned.to_uint_nonnil p) as Hn.
  assert (Hu : Decimal.unorm (Pos.to_uint p) = Pos.to_uint p).
  { rewrite <- (DecimalPos.Unsigned.to_of (Pos.to_uint p)).
    by rewrite DecimalPos.Unsigned.of_to. }
  destruct (Pos.to_uint p) as [|d|d|d|d|d|d|d|d|d|d] eqn:E;
    cbn [JS.digits]; try (eexists _, _; split_and!; [done..|lia]); [done|].
  exfalso. rewrite DecimalFacts.unorm_D0 in Hu.
  assert (Hd : d ≠ Decimal.Nil) by (by intros ->).
  pose proof (DecimalFacts.nb_digits_unorm d Hd) as Hle.
  rewrite Hu in Hle. cbn in Hle. lia.
Qed.

Lemma readInt_to_uint (p : positive) (rest : jsstring) :
  ends_number rest →
  JSON.readInt (JS.digits (Pos.to_uint p) ++ rest)
  = Some (JS.digits (Pos.to_uint p), rest).
Proof.
  intros Hr. pose proof (digits_isDigit (Pos.to_uint p)) as Hd.
  destruct (to_uint_head p) as (c & r & E & Hc & H0). rewrite E in Hd |- *.
  apply Forall_cons in Hd as [_ Hd]. cbn [app JSON.readInt].
  rewrite (proj2 (N.eqb_neq c 48)), Hc, spanDigits_app by done. done.
Qed.

Lemma readFrac_none (rest : jsstring) :
  ends_number rest → JSON.readFrac rest = Some ([], rest).
Proof.
  destruct rest as [|c r]; [done|]. intros (_ & Hp & _).
  cbn [JSON.readFrac]. by rewrite (proj2 (N.eqb_neq c 0x2E)).
Qed.

Lemma readExp_none (rest : jsstring) :
  ends_number rest → JSON.readExp rest = Some ([], rest).
Proof.
  destruct rest as [|c r]; [done|]. intros (_ & _ & He & HE).
  cbn [JSON.readExp].
  by rewrite (proj2 (N.eqb_neq c 0x65)), (proj2 (N.eqb_neq c 0x45)).
Qed.

Lemma readNumber_numberToString (z : Z) (rest : jsstring) :
  ends_number rest →
  JSON.readNumber (JS.numberToString z ++ rest) = Some (JSON.Int z, rest).
Proof.
  intros Hr. unfold JSON.readNumber. destruct z as [|p|p]; cbn [JS.numberToString].
  - cbn [app]. change (48 =? 0x2D) with false. cbn [JSON.readInt].
    change (48 =? 48) with true. cbn [mbind option_bind].
    rewrite readFrac_none by done. cbn [mbind option_bind].
    rewrite readExp_none by done. reflexivity.
  - destruct (to_uint_head p) as (c & r & E & Hc & H0).
    assert (Hm : c ≠ 0x2D).
    { intros ->. done. }
    rewrite E. cbn [app]. rewrite (proj2 (N.eqb_neq c 0x2D)) by done.
    cbv beta iota zeta.
    change (c :: r ++ rest) with ((c :: r) ++ rest). rewrite <- E.
    rewrite readInt_to_uint by done. cbn [mbind option_bind].
    rewrite readFrac_none by done. cbn [mbind option_bind].
    rewrite readExp_none by done. cbn [mbind option_bind].
    rewrite digitsValue_digits.
    change (N.of_uint (Pos.to_uint p)) with (Pos.of_uint (Pos.to_uint p)).
    by rewrite DecimalPos.Unsigned.of_to.
  - cbn [app]. change (45 =? 0x2D) with true. cbv beta iota zeta.
    rewrite readInt_to_uint by done. cbn [mbind option_bind].
    rewrite readFrac_none by done. cbn [mbind option_bind].
    rewrite readExp_none by done. cbn [mbind option_bind].
    rewrite digitsValue_digits.
    change (N.of_uint (Pos.to_uint p)) with (Pos.of_uint (Pos.to_uint p)).
    by rewrite DecimalPos.Unsigned.of_to.
Qed.

End Numbers.

Section Values.

Local Open Scope N_scope.

Lemma value_ind (P : JSON.value → Prop) :
  P JSON.Null → (∀ b, P (JSON.Boolean b)) → (∀ z, P (JSON.Int z)) →
  (∀ l, P (JSON.Real l)) → (∀ s, P (JSON.Str s)) →
  (∀ vs, Forall P vs → P (JSON.Array vs)) →
  (∀ ms, Forall (λ m, P m.2) ms → P (JSON.Object ms)) →
  ∀ v, P v.
Proof.
  intros Hn Hb Hi Hr Hs Ha Ho.
  fix IH 1. intros [| | | | |vs|ms]; [done..| |].
  - apply Ha. induction vs as [|v vs IHvs]; constructor; [apply IH|done].
  - apply Ho. induction ms as [|[k v] ms IHms]; constructor;
      [apply IH|done].
Qed.

Lemma commas_rest {A} (f : A → jsstring) (x : A) (xs : list A)
    (close : N) (rest : jsstring) :
  (JSON.commas (f <$> (x :: xs)) ++ [close]) ++ rest
  = f x ++ foldr (λ y r, 0x2C :: f y ++ r) (close :: rest) xs.
Proof.
  revert x. induction xs as [|y xs IH]; intros x.
  - cbn. by rewrite <- app_assoc.
  - rewrite fmap_cons. change (JSON.commas (f x :: (f <$> (y :: xs))))
      with (f x ++ 0x2C :: JSON.commas (f <$> (y :: xs))).
    rewrite <- !app_assoc. cbn [app foldr]. do 2 f_equal.
    rewrite <- IH. by rewrite <- app_assoc.
Qed.

Lemma stringify_array (v : JSON.value) (vs : list JSON.value)
    (rest : jsstring) :
  JSON.stringify (JSON.Array (v :: vs)) ++ rest
  = 0x5B :: JSON.stringify v ++ restElements vs rest.
Proof.
  cbn [JSON.stringify app]. f_equal. rewrite commas_rest. f_equal.
  induction vs as [|w vs IH]; cbn; [done|]. by rewrite IH.
Qed.

Lemma stringify_object (m : jsstring * JSON.value)
    (ms : list (jsstring * JSON.value)) (rest : jsstring) :
  JSON.stringify (JSON.Object (m :: ms)) ++ rest
  = 0x7B :: JSON.quote m.1 ++ 0x3A :: JSON.stringify m.2
         ++ restMembers ms rest.
Proof.
  cbn [JSON.stringify app]. f_equal. rewrite commas_rest.
  rewrite <- app_assoc. cbn [app]. do 3 f_equal.
  induction ms as [|w ms IH]; cbn [foldr restMembers]; [done|].
  rewrite <- app_assoc. cbn [app]. by rewrite IH.
Qed.

Lemma isWhiteSpace_false (c : N) :
  c ≠ 0x20 → c ≠ 0x09 → c ≠ 0x0A → c ≠ 0x0D → JSON.isWhiteSpace c = false.
Proof.
  intros. unfold JSON.isWhiteSpace.
  by rewrite !(proj2 (N.eqb_neq c _)) by done.
Qed.

Lemma isDigit_range (c : N) : JSON.isDigit c = true → 48 ≤ c ≤ 57.
Proof.
  unfold JSON.isDigit. intros [?%N.leb_le ?%N.leb_le]%andb_true_iff. lia.
Qed.

Lemma opens_digit (c : N) : JSON.isDigit c = true → opens c.
Proof.
  intros Hc%isDigit_range. split_and!; [apply isWhiteSpace_false|..]; lia.
Qed.

Lemma stringify_opens (v : JSON.value) :
  JSON.plain v = true → ∃ c r, JSON.stringify v = c :: r ∧ opens c.
Proof.
  destruct v as [|[]|[|p|p]|l|s|vs|ms]; intros Hp;
    try (eexists _, _; split; [reflexivity|by split_and!]).
  - destruct (to_uint_head p) as (c & r & E & Hc & _).
    exists c, r. split; [done|by apply opens_digit].
  - done.
Qed.

Lemma skipWhiteSpace_opens (c : N) (r : jsstring) :
  JSON.isWhiteSpace c = false → JSON.skipWhiteSpace (c :: r) = c :: r.
Proof. intros Hc. cbn. by rewrite Hc. Qed.

(** A digit or a minus sign starts a number. *)
Lemma parseGoal_number (fuel : nat) (c : N) (r : jsstring) :
  JSON.isDigit c = true ∨ c = 0x2D →
  JSON.parseGoal (S fuel) JSON.AValue (c :: r) = JSON.readNumber (c :: r).
Proof.
  intros Hc.
  assert (Hr : 48 ≤ c ≤ 57 ∨ c = 45).
  { destruct Hc as [Hc%isDigit_range|Hc]; [by left|by right]. }
  cbn [JSON.parseGoal]. rewrite skipWhiteSpace_opens
    by (apply isWhiteSpace_false; lia).
  by rewrite !(proj2 (N.eqb_neq c _)) by lia.
Qed.

Lemma parseGoal_Int (fuel : nat) (z : Z) (rest : jsstring) :
  ends_number rest →
  JSON.parseGoal (S fuel) JSON.AValue (JS.numberToString z ++ rest)
  = Some (JSON.Int z, rest).
Proof.
  intros Hr. rewrite <- (readNumber_numberToString z rest Hr).
  destruct z as [|p|p]; cbn [JS.numberToString].
  - apply parseGoal_number. by left.
  - destruct (to_uint_head p) as (c & r & E & Hc & _). rewrite E.
    apply parseGoal_number. by left.
  - apply parseGoal_number. by right.
Qed.

Lemma parseGoal_Str (fuel : nat) (s rest : jsstring) :
  JSON.parseGoal (S fuel) JSON.AValue (JSON.quote s ++ rest)
  = Some (JSON.Str s, rest).
Proof.
  destruct (readString_quote s rest) as (tail & -> & Hs).
  cbn [JSON.parseGoal]. rewrite skipWhiteSpace_opens by done.
  change (0x22 =? 0x7B) with false. change (0x22 =? 0x5B) with false.
  change (0x22 =? 0x22) with true. cbv beta iota. by rewrite Hs.
Qed.

Lemma ends_number_restElements vs rest : ends_number (restElements vs rest).
Proof. destruct vs; cbn; split_and!; done. Qed.

Lemma ends_number_restMembers ms rest : ends_number (restMembers ms rest).
Proof. destruct ms; cbn; split_and!; done. Qed.

Lemma parseGoal_Elements (vs : list JSON.value) :
  Forall reads_back vs → forallb JSON.plain vs = true →
  ∀ acc fuel rest,
    (foldr (λ v r, S (need v + r)) 1 vs ≤ fuel)%nat →
    JSON.parseGoal fuel (JSON.Elements acc) (restElements vs rest)
    = Some (JSON.Array (acc ++ vs), rest).
Proof.
  induction 1 as [|v vs Hv _ IH]; intros Hp acc fuel rest Hf.
  - destruct fuel as [|fuel]; [cbn in Hf; lia|].
    cbn. by rewrite app_nil_r.
  - cbn [forallb] in Hp. apply andb_true_iff in Hp as [Hpv Hpvs].
    cbn [foldr] in Hf. destruct fuel as [|fuel]; [lia|].
    cbn [restElements JSON.parseGoal].
    rewrite skipWhiteSpace_opens by done.
    change (0x2C =? 0x2C) with true. cbv beta iota.
    rewrite (Hv Hpv) by (lia || apply ends_number_restElements).
    cbn [mbind option_bind]. rewrite IH by (done || lia).
    by rewrite <- app_assoc.
Qed.

Lemma definePlain_fresh (k : jsstring) (v : JSON.value)
    (acc : list (jsstring * JSON.value)) :
  k ∉ acc.*1 → JSON.definePlain k v acc = acc ++ [(k, v)].
Proof.
  induction acc as [|[k' v'] acc IH]; intros Hk; [done|].
  rewrite fmap_cons in Hk. apply not_elem_of_cons in Hk as [Hne Hk].
  cbn [JSON.definePlain]. rewrite bool_decide_eq_false_2 by done.
  by rewrite IH.
Qed.

Lemma parseGoal_Member (fuel : nat) (k : jsstring) (v : JSON.value)
    (acc : list (jsstring * JSON.value)) (tail : jsstring) :
  reads_back v → JSON.plain v = true → (need v ≤ fuel)%nat →
  ends_number tail → JSON.arrayIndex k = None → k ∉ acc.*1 →
  JSON.parseGoal (S fuel) (JSON.Member acc)
    (JSON.quote k ++ 0x3A :: JSON.stringify v ++ tail)
  = JSON.parseGoal fuel (JSON.Members (acc ++ [(k, v)])) tail.
Proof.
  intros Hv Hp Hf Ht Hi Hk.
  destruct (readString_quote k (0x3A :: JSON.stringify v ++ tail))
    as (body & -> & Hs).
  cbn [JSON.parseGoal]. rewrite skipWhiteSpace_opens by done.
  change (0x22 =? 0x22) with true. cbv beta iota. rewrite Hs.
  cbn [mbind option_bind]. rewrite skipWhiteSpace_opens by done.
  change (0x3A =? 0x3A) with true. cbv beta iota.
  rewrite (Hv Hp) by done. cbn [mbind option_bind].
  unfold JSON.define. by rewrite Hi, definePlain_fresh.
Qed.

Lemma parseGoal_Members (ms : list (jsstring * JSON.value)) :
  Forall (λ m, reads_back m.2) ms →
  forallb (λ m, JSON.plain m.2) ms = true →
  Forall (λ m, JSON.arrayIndex m.1 = None) ms →
  ∀ acc fuel rest,
    NoDup ((acc ++ ms).*1) →
    (foldr (λ m r, S (S (need m.2 + r))) 1 ms ≤ fuel)%nat →
    JSON.parseGoal fuel (JSON.Members acc) (restMembers ms rest)
    = Some (JSON.Object (acc ++ ms), rest).
Proof.
  induction 1 as [|[k v] ms Hv _ IH]; intros Hp Hi acc fuel rest Hn Hf.
  - destruct fuel as [|fuel]; [cbn in Hf; lia|].
    cbn. by rewrite app_nil_r.
  - cbn [forallb] in Hp. apply andb_true_iff in Hp as [Hpv Hpvs].
    apply Forall_cons in Hi as [Hik Hi].
    cbn [foldr] in Hf. destruct fuel as [|fuel]; [lia|].
    cbn [restMembers]. cbn [JSON.parseGoal].
    rewrite skipWhiteSpace_opens by done.
    change (0x2C =? 0x2C) with true. cbv beta iota.
    cbn [fst snd] in *. destruct fuel as [|fuel]; [lia|].
    rewrite parseGoal_Member;
      [|done|done|lia|apply ends_number_restMembers|done|].
    + rewrite IH; [by rewrite <- app_assoc|done|done| |lia].
      by rewrite <- app_assoc.
    + rewrite fmap_app, fmap_cons in Hn.
      apply NoDup_app in Hn as (_ & Hn & _). intros Hk.
      apply (Hn k Hk). cbn. left.
Qed.

Lemma need_pos (v : JSON.value) : (1 ≤ need v)%nat.
Proof. destruct v as [| | | | |[|??]|[|??]]; cbn; lia. Qed.

Lemma stringify_reads_back (v : JSON.value) : reads_back v.
Proof.
  induction v as [|b|z|l|s|vs IH|ms IH] using value_ind;
    intros Hp fuel rest Hf Hr;
    (destruct fuel as [|fuel];
     [match type of Hf with (need ?v ≤ _)%nat =>
        pose proof (need_pos v); lia end|]).
  - reflexivity.
  - by destruct b.
  - by apply parseGoal_Int.
  - done.
  - apply parseGoal_Str.
  - destruct vs as [|v vs]; [reflexivity|].
    apply Forall_cons in IH as [IHv IH].
    cbn [JSON.plain forallb] in Hp. apply andb_true_iff in Hp as [Hpv Hp].
    cbn [need foldr] in Hf.
    rewrite stringify_array. cbn [JSON.parseGoal].
    rewrite skipWhiteSpace_opens by done.
    change (0x5B =? 0x7B) with false. change (0x5B =? 0x5B) with true.
    cbv beta iota.
    destruct (stringify_opens v Hpv) as (c & r & E & Hw & Hc & _).
    rewrite E. cbn [app]. rewrite skipWhiteSpace_opens by done.
    rewrite (proj2 (N.eqb_neq c 0x5D)) by done.
    change (c :: r ++ restElements vs rest)
      with ((c :: r) ++ restElements vs rest). rewrite <- E.
    rewrite (IHv Hpv) by (lia || apply ends_number_restElements).
    cbn [mbind option_bind].
    by rewrite parseGoal_Elements by (done || lia).
  - destruct ms as [|[k v] ms]; [reflexivity|].
    cbn [JSON.plain] in Hp.
    apply andb_true_iff in Hp as [[Hn Hi]%andb_true_iff Hp].
    apply bool_decide_eq_true_1 in Hn.
    apply Is_true_true, forallb_True in Hi.
    assert (Hi' : Forall (λ m, JSON.arrayIndex m.1 = None) ((k, v) :: ms)).
    { eapply Forall_impl; [exact Hi|]. intros m Hm.
      by apply bool_decide_unpack in Hm. }
    cbn [need foldr] in Hf.
    rewrite stringify_object. cbn [JSON.parseGoal fst snd].
    rewrite skipWhiteSpace_opens by done.
    change (0x7B =? 0x7B) with true. cbv beta iota.
    unfold JSON.quote at 1. cbn [app].
    rewrite skipWhiteSpace_opens by done.
    change (0x22 =? 0x7D) with false. cbv beta iota.
    change (0x22 :: (JSON.quoteBody k ++ [0x22]) ++ ?t)
      with (JSON.quote k ++ t).
    destruct fuel as [|fuel]; [cbn in Hf; lia|].
    apply Forall_cons in IH as [IHv IH]. apply Forall_cons in Hi' as [Hk Hi'].
    cbn [forallb] in Hp. apply andb_true_iff in Hp as [Hpv Hp].
    cbn [fst snd] in *.
    rewrite parseGoal_Member;
      [|done|done|lia|apply ends_number_restMembers|done|apply not_elem_of_nil].
    cbn [app]. by rewrite (parseGoal_Members ms IH Hp Hi' [(k, v)]) by (done || lia).
Qed.

Lemma need_restElements (vs : list JSON.value) (rest : jsstring) :
  Forall (λ v, JSON.plain v = true
               → (need v ≤ length (JSON.stringify v))%nat) vs →
  forallb JSON.plain vs = true →
  (foldr (λ v r, S (need v + r)) 1 vs ≤ length (restElements vs rest))%nat.
Proof.
  induction 1 as [|v vs Hv _ IH]; intros Hp; cbn [foldr restElements].
  - cbn. lia.
  - cbn [forallb] in Hp. apply andb_true_iff in Hp as [Hpv Hp].
    specialize (Hv Hpv). specialize (IH Hp).
    cbn [length]. rewrite length_app. lia.
Qed.

Lemma need_restMembers (ms : list (jsstring * JSON.value))
    (rest : jsstring) :
  Forall (λ m, JSON.plain m.2 = true
               → (need m.2 ≤ length (JSON.stringify m.2))%nat) ms →
  forallb (λ m, JSON.plain m.2) ms = true →
  (foldr (λ m r, S (S (need m.2 + r))) 1 ms
   ≤ length (restMembers ms rest))%nat.
Proof.
  induction 1 as [|m ms Hv _ IH]; intros Hp; cbn [foldr restMembers].
  - cbn. lia.
  - cbn [forallb] in Hp. apply andb_true_iff in Hp as [Hpv Hp].
    specialize (Hv Hpv). specialize (IH Hp).
    cbn [length]. rewrite length_app. cbn [length].
    rewrite length_app. lia.
Qed.

Lemma need_le_length (v : JSON.value) :
  JSON.plain v = true → (need v ≤ length (JSON.stringify v))%nat.
Proof.
  induction v as [|b|z|l|s|vs IH|ms IH] using value_ind; intros Hp;
    try (destruct (stringify_opens _ Hp) as (c & r & -> & _);
         cbn; lia).
  - destruct vs as [|v vs]; [cbn; lia|].
    rewrite <- (app_nil_r (JSON.stringify _)), stringify_array.
    apply Forall_cons in IH as [IHv IH].
    cbn [JSON.plain forallb] in Hp. apply andb_true_iff in Hp as [Hpv Hp].
    pose proof (need_restElements vs [] IH Hp). specialize (IHv Hpv).
    cbn [need foldr length]. rewrite length_app. lia.
  - destruct ms as [|m ms]; [cbn; lia|].
    rewrite <- (app_nil_r (JSON.stringify _)), stringify_object.
    apply Forall_cons in IH as [IHv IH].
    cbn [JSON.plain] in Hp. apply andb_true_iff in Hp as [_ Hp].
    cbn [forallb] in Hp. apply andb_true_iff in Hp as [Hpv Hp].
    pose proof (need_restMembers ms [] IH Hp). specialize (IHv Hpv).
    cbn [need foldr length]. rewrite length_app. cbn [length].
    rewrite length_app. lia.
Qed.

(** [JSON.parse(JSON.stringify(v))] is [v] again. *)
Lemma parse_stringify (v : JSON.value) :
  JSON.plain v = true → JSON.parse (JSON.stringify v) = Some v.
Proof.
  intros Hp. unfold JSON.parse.
  rewrite <- (app_nil_r (JSON.stringify v)) at 2.
  rewrite (stringify_reads_back v Hp); [done| |done].
  pose proof (need_le_length v Hp). lia.
Qed.

End Values.

(** * The claims about hydration and persistence *)

Section Persistence.

Implicit Types (h : list QRHistoryItem.t) (i : QRHistoryItem.t).

Lemma toJSON_plain i : JSON.plain (QRHistoryItem.toJSON i) = true.
Proof. reflexivity. Qed.

Lemma historyValue_plain h : JSON.plain (App.historyValue h) = true.
Proof.
  unfold App.historyValue. cbn [JSON.plain].
  induction h as [|i h IH]; [done|].
  rewrite fmap_cons. cbn [forallb]. by rewrite toJSON_plain, IH.
Qed.

Lemma ofJSON_toJSON i : QRHistoryItem.ofJSON (QRHistoryItem.toJSON i) = Some i.
Proof. by destruct i. Qed.

Lemma historyOf_historyValue h : App.historyOf (App.historyValue h) = Some h.
Proof.
  unfold App.historyOf, App.historyValue.
  induction h as [|i h IH]; [done|].
  rewrite fmap_cons. cbn [mapM]. rewrite ofJSON_toJSON. cbn [mbind option_bind].
  by rewrite IH.
Qed.

Lemma loadEffect_parsed (text : jsstring) (v : JSON.value) :
  JSON.parse text = Some v →
  App.loadEffect (Some text) = JS.Normal (Some v, []).
Proof.
  intros Hp. unfold App.loadEffect.
  destruct text as [|c text]; [done|]. cbn [JS.falsy].
  unfold JSON.JSON_parse. by rewrite Hp.
Qed.

(** What a stored array of entries hydrates to: the parsed value, as it
    is. *)
Lemma mount_parsed (text : jsstring) h :
  JSON.parse text = Some (App.historyValue h) →
  App.mount (Some text)
  = JS.Normal (App.mkMounted (App.historyValue h)
                 (JSON.stringify (App.historyValue h)) []).
Proof.
  intros Hp. unfold App.mount, App.loadEffect.
  destruct text as [|c text]; [done|]. cbn [JS.falsy].
  unfold JSON.JSON_parse. by rewrite Hp.
Qed.

Lemma mount_persisted h :
  App.mount (Some (App.saveEffect (App.historyValue h)))
  = JS.Normal (App.mkMounted (App.historyValue h)
                 (App.saveEffect (App.historyValue h)) []).
Proof.
  apply mount_parsed, parse_stringify, historyValue_plain.
Qed.

End Persistence.

(** C5. Persist, then load: for a valid history [S] of at most ten entries,
    the text the save effect writes is read back by the load effect as [S]
    (the same entries, fields and order), with nothing logged. *)
Theorem load_persist_identity (S : list QRHistoryItem.t) :
  Store.validHistory S →
  App.loadEffect (Some (App.saveEffect (App.historyValue S)))
    = JS.Normal (Some (App.historyValue S), [])
  ∧ App.mount (Some (App.saveEffect (App.historyValue S)))
    = JS.Normal (App.mkMounted (App.historyValue S)
                   (App.saveEffect (App.historyValue S)) [])
  ∧ App.historyOf (App.historyValue S) = Some S.
Proof.
  intros _. split_and!.
  - apply loadEffect_parsed, parse_stringify, historyValue_plain.
  - apply mount_persisted.
  - apply historyOf_historyValue.
Qed.

Lemma load_persist_identity_witness :
  App.loadEffect
    (Some (App.saveEffect
             (App.historyValue
                (App.history (Store.adds Sample.twelve App.initial)))))
  = JS.Normal
      (Some (App.historyValue
               (App.history (Store.adds Sample.twelve App.initial))), []).
Proof.
  apply load_persist_identity. split.
  - vm_compute. lia.
  - apply (bool_decide_unpack _). vm_compute. exact I.
Defined.

(** C6. A stored text that is not JSON leaves the history empty: the
    [SyntaxError] is caught and only logged, mounting completes normally,
    and the cell and the stored text end up as they do when nothing was
    stored. *)
Theorem load_corrupt_is_empty (blob : jsstring) :
  JSON.parse blob = None →
  ∃ log,
    App.mount (Some blob)
    = JS.Normal (App.mkMounted (App.historyValue []) (JS.lit "[]") log)
    ∧ Forall (λ e, e = App.consoleError (JS.lit "Failed to parse history")) log
    ∧ App.loadEffect (Some blob) = JS.Normal (None, log)
    ∧ App.mount None
      = JS.Normal (App.mkMounted (App.historyValue []) (JS.lit "[]") []).
Proof.
  intros Hp. unfold App.mount, App.loadEffect, JSON.JSON_parse.
  destruct blob as [|c blob].
  - exists []. by split_and!.
  - cbn [JS.falsy]. rewrite Hp.
    exists [App.consoleError (JS.lit "Failed to parse history")].
    split_and!; [done| |done..]. by constructor.
Qed.

Lemma load_corrupt_is_empty_witness :
  ∃ log,
    App.mount (Some Sample.corrupt)
    = JS.Normal (App.mkMounted (App.historyValue []) (JS.lit "[]") log)
    ∧ Forall (λ e, e = App.consoleError (JS.lit "Failed to parse history")) log
    ∧ App.loadEffect (Some Sample.corrupt) = JS.Normal (None, log)
    ∧ App.mount None
      = JS.Normal (App.mkMounted (App.historyValue []) (JS.lit "[]") []).
Proof.
  apply load_corrupt_is_empty. vm_compute. reflexivity.
Defined.

(** C9. Hydration checks nothing: whatever value the stored text denotes
    is handed to [setHistory] as it is, with no test of its shape, its length
    or its addresses.  So a stored array of eleven entries gives a history of
    eleven, and stored entries with a blank or an untrimmed address are kept
    with that address. *)
Theorem load_installs_verbatim :
  (∀ blob v,
     JSON.parse blob = Some v →
     App.loadEffect (Some blob) = JS.Normal (Some v, []))
  ∧ (App.loadEffect (Some Sample.eleven)
     = JS.Normal (Some (App.historyValue Sample.elevenItems), [])
     ∧ App.mount (Some Sample.eleven)
       = JS.Normal (App.mkMounted (App.historyValue Sample.elevenItems)
                      (JSON.stringify (App.historyValue Sample.elevenItems))
                      [])
     ∧ length Sample.elevenItems = 11
     ∧ ¬ Store.validHistory Sample.elevenItems)
  ∧ (App.loadEffect (Some Sample.untrimmed)
     = JS.Normal (Some (App.historyValue Sample.untrimmedItems), [])
     ∧ App.mount (Some Sample.untrimmed)
       = JS.Normal (App.mkMounted (App.historyValue Sample.untrimmedItems)
                      (JSON.stringify (App.historyValue Sample.untrimmedItems))
                      [])
     ∧ Exists (λ i, JS.trim (QRHistoryItem.url i) = [])
         Sample.untrimmedItems
     ∧ Exists (λ i, JS.trim (QRHistoryItem.url i) ≠ QRHistoryItem.url i
                    ∧ JS.trim (QRHistoryItem.url i) ≠ [])
         Sample.untrimmedItems).
Proof.
  split_and!.
  - apply loadEffect_parsed.
  - apply loadEffect_parsed. vm_compute. reflexivity.
  - apply mount_parsed. vm_compute. reflexivity.
  - reflexivity.
  - intros [Hl _]. cbn in Hl. lia.
  - apply loadEffect_parsed. vm_compute. reflexivity.
  - apply mount_parsed. vm_compute. reflexivity.
  - apply Exists_cons_hd. vm_compute. reflexivity.
  - apply Exists_cons_tl, Exists_cons_hd. split; vm_compute; discriminate.
Qed.

Lemma load_installs_verbatim_witness :
  App.loadEffect (Some (JS.lit "42")) = JS.Normal (Some (JSON.Int 42), []).
Proof.
  apply (proj1 load_installs_verbatim). vm_compute. reflexivity.
Defined.

(** * The fuel of the parser is never used up *)

Section Fuel.

Local Open Scope N_scope.

(** Case analysis on what a reader returned. *)
Ltac read_cases :=
  repeat (case_match
          || match goal with
             | p : (_ * _)%type |- _ => destruct p
             end
          || (progress (simplify_option_eq))).

Lemma skipWhiteSpace_length (s s' : jsstring) :
  JSON.skipWhiteSpace s = s' → (length s' ≤ length s)%nat.
Proof.
  intros <-. induction s as [|c s IH]; [done|]. cbn.
  destruct (JSON.isWhiteSpace c); cbn; lia.
Qed.

Lemma readString_progress (s str rest : jsstring) :
  JSON.readString s = Some (str, rest) → (length rest < length s)%nat.
Proof.
  remember (length s) as n eqn:Hn. revert s str rest Hn.
  induction n as [n IH] using lt_wf_ind. intros s str rest -> H.
  destruct s as [|c r]; [done|]. cbn [JSON.readString] in H.
  read_cases; cbn [length];
    repeat match goal with
      | H : JSON.readString ?t = Some (_, ?b) |- _ =>
          assert (length b < length t)%nat
            by (eapply IH; [|reflexivity|exact H]; cbn [length]; lia);
          clear H
      end; lia.
Qed.

Lemma spanDigits_length (s ds rest : jsstring) :
  JSON.spanDigits s = (ds, rest) → (length rest ≤ length s)%nat.
Proof.
  revert ds rest. induction s as [|c s IH]; intros ds rest H; cbn in H.
  - by injection H as <- <-.
  - destruct (JSON.isDigit c); [|injection H as <- <-; done].
    destruct (JSON.spanDigits s) as [ds' rest'] eqn:E.
    injection H as <- <-. specialize (IH _ _ eq_refl). cbn. lia.
Qed.

Lemma stripPrefix_length (p s rest : jsstring) :
  JSON.stripPrefix p s = Some rest → (length rest ≤ length s)%nat.
Proof.
  revert s. induction p as [|a p IH]; intros s H.
  - destruct s; injection H as <-; done.
  - destruct s as [|b s]; [done|]. cbn in H.
    destruct (a =? b); [|done]. apply IH in H. cbn. lia.
Qed.

Lemma readInt_progress (s ds rest : jsstring) :
  JSON.readInt s = Some (ds, rest) → (length rest < length s)%nat.
Proof.
  destruct s as [|c r]; [done|]. cbn [JSON.readInt].
  repeat case_match; intros; simplify_eq; cbn [length];
    try match goal with
      | H : JSON.spanDigits _ = _ |- _ => apply spanDigits_length in H
      end; lia.
Qed.

Lemma readFrac_length (s ds rest : jsstring) :
  JSON.readFrac s = Some (ds, rest) → (length rest ≤ length s)%nat.
Proof.
  destruct s as [|c r]; cbn [JSON.readFrac].
  - intros; by simplify_eq.
  - repeat case_match; intros; simplify_eq; cbn [length];
      try match goal with
        | H : JSON.spanDigits _ = _ |- _ => apply spanDigits_length in H
        end; lia.
Qed.

Lemma readExp_length (s ds rest : jsstring) :
  JSON.readExp s = Some (ds, rest) → (length rest ≤ length s)%nat.
Proof.
  destruct s as [|c r]; cbn [JSON.readExp].
  - intros; by simplify_eq.
  - repeat case_match; intros; simplify_eq; cbn [length] in *;
      try match goal with
        | H : JSON.spanDigits _ = _ |- _ => apply spanDigits_length in H
        end; cbn [length] in *; lia.
Qed.

Lemma readNumber_progress (s rest : jsstring) (v : JSON.value) :
  JSON.readNumber s = Some (v, rest) → (length rest < length s)%nat.
Proof.
  unfold JSON.readNumber. intros H.
  read_cases;
    repeat match goal with
      | H : JSON.readInt _ = Some _ |- _ => apply readInt_progress in H
      | H : JSON.readFrac _ = Some _ |- _ => apply readFrac_length in H
      | H : JSON.readExp _ = Some _ |- _ => apply readExp_length in H
      | H : JSON.spanDigits _ = _ |- _ => apply spanDigits_length in H
      end; cbn [length] in *; lia.
Qed.

Ltac progress_facts IH :=
  repeat match goal with
    | H : JSON.parseGoal _ _ _ = Some _ |- _ => apply IH in H
    | H : JSON.readString _ = Some _ |- _ => apply readString_progress in H
    | H : JSON.readNumber _ = Some _ |- _ => apply readNumber_progress in H
    | H : JSON.stripPrefix _ _ = Some _ |- _ => apply stripPrefix_length in H
    | H : JSON.skipWhiteSpace _ = _ |- _ => apply skipWhiteSpace_length in H
    | H : JSON.readInt _ = Some _ |- _ => apply readInt_progress in H
    | H : JSON.readFrac _ = Some _ |- _ => apply readFrac_length in H
    | H : JSON.readExp _ = Some _ |- _ => apply readExp_length in H
    | H : JSON.spanDigits _ = _ |- _ => apply spanDigits_length in H
    end.

(** Whatever the parser reads, it reads at least one character of. *)
Lemma parseGoal_progress (n : nat) (g : JSON.goal) (s rest : jsstring)
    (v : JSON.value) :
  JSON.parseGoal n g s = Some (v, rest) → (length rest < length s)%nat.
Proof.
  revert g s v rest. induction n as [|n IH]; intros g s v rest H; [done|].
  cbn [JSON.parseGoal] in H.
  destruct (JSON.skipWhiteSpace s) as [|c r] eqn:Es; [by destruct g|].
  apply skipWhiteSpace_length in Es. cbn [length] in Es.
  destruct g; read_cases; progress_facts IH; cbn [length] in *; lia.
Qed.

Ltac shorter :=
  progress_facts parseGoal_progress; cbn [length] in *; lia.

(** So the answer does not depend on the fuel, once it exceeds the length
    of the text: [None] is a text the grammar rejects. *)
Lemma parseGoal_fuel (n m : nat) (g : JSON.goal) (s : jsstring) :
  (length s < n)%nat → (length s < m)%nat →
  JSON.parseGoal n g s = JSON.parseGoal m g s.
Proof.
  revert m g s. induction n as [|n IH]; intros [|m] g s Hn Hm; [lia..|].
  cbn [JSON.parseGoal]. unfold mbind, option_bind.
  destruct (JSON.skipWhiteSpace s) as [|c r] eqn:Es; [done|].
  destruct g;
    repeat first
      [ reflexivity
      | match goal with
        | |- context [JSON.parseGoal n ?g' ?s'] =>
            rewrite (IH m g' s') by shorter
        end
      | case_match ].
Qed.

Lemma parse_fuel (fuel : nat) (text : jsstring) :
  (length text < fuel)%nat →
  JSON.parse text
  = match JSON.parseGoal fuel JSON.AValue text with
    | Some (v, rest) =>
        match JSON.skipWhiteSpace rest with [] => Some v | _ => None end
    | None => None
    end.
Proof.
  intros Hf. unfold JSON.parse.
  by rewrite (parseGoal_fuel (S (length text)) fuel) by lia.
Qed.

End Fuel.

(** * Further properties: trimming *)

Section Trim.

Lemma trimStart_head (s : jsstring) :
  match JS.trimStart s with
  | [] => True
  | c :: _ => JS.isTrimmed c = false
  end.
Proof.
  induction s as [|c s IH]; [done|]. cbn [JS.trimStart].
  destruct (JS.isTrimmed c) eqn:E; [done|]. exact E.
Qed.

Lemma trimStart_fixed (c : N) (r : jsstring) :
  JS.isTrimmed c = false → JS.trimStart (c :: r) = c :: r.
Proof. intros E. cbn [JS.trimStart]. by rewrite E. Qed.

Lemma trimStart_idem (s : jsstring) :
  JS.trimStart (JS.trimStart s) = JS.trimStart s.
Proof.
  pose proof (trimStart_head s) as H.
  destruct (JS.trimStart s) as [|c r]; [done|]. by apply trimStart_fixed.
Qed.

Lemma trimStart_snoc (l : jsstring) (c : N) :
  JS.isTrimmed c = false → ∃ l', JS.trimStart (l ++ [c]) = l' ++ [c].
Proof.
  intros E. induction l as [|a l IH].
  - exists []. by apply trimStart_fixed.
  - cbn [app JS.trimStart]. destruct (JS.isTrimmed a); [done|].
    by exists (a :: l).
Qed.

Lemma trimEnd_head (c : N) (r : jsstring) :
  JS.isTrimmed c = false → ∃ r', JS.trimEnd (c :: r) = c :: r'.
Proof.
  intros E. unfold JS.trimEnd. rewrite reverse_cons.
  destruct (trimStart_snoc (reverse r) c E) as [l' ->].
  exists (reverse l'). by rewrite reverse_app.
Qed.

Lemma trimEnd_idem (s : jsstring) : JS.trimEnd (JS.trimEnd s) = JS.trimEnd s.
Proof.
  unfold JS.trimEnd. by rewrite reverse_involutive, trimStart_idem.
Qed.

(** [s.trim().trim()] is [s.trim()]. *)
Lemma trim_idem (s : jsstring) : JS.trim (JS.trim s) = JS.trim s.
Proof.
  unfold JS.trim. pose proof (trimStart_head s) as H.
  destruct (JS.trimStart s) as [|c r]; [done|].
  destruct (trimEnd_head c r H) as [r' E]. rewrite E.
  rewrite (trimStart_fixed c r' H), <- E. apply trimEnd_idem.
Qed.

End Trim.

(** * Further properties: the history under every event *)

Section Sessions.

Implicit Types (s : Session.t) (e : Session.Event) (es : list Session.Event).
Implicit Types (st : App.State) (h : list QRHistoryItem.t).

(** What [addToHistory] does to the history, whatever its length. *)
Lemma addToHistory_history st (random36 : jsstring) (now : Z) :
  App.history (App.addToHistory st random36 now)
  = if bool_decide (JS.trim (App.url st) = []) then App.history st
    else match App.history st with
         | [] => [App.newItem st random36 now]
         | e0 :: _ =>
             if bool_decide (QRHistoryItem.url e0 = JS.trim (App.url st))
             then App.history st
             else App.newItem st random36 now :: take 9 (App.history st)
         end.
Proof.
  unfold App.addToHistory. rewrite blank_guard.
  case_bool_decide as Hb; [done|].
  destruct (App.history st) as [|e0 h] eqn:E; cbn [QRHistoryItem.url App.newItem].
  - by rewrite history_setHistory, E.
  - case_bool_decide as H1; case_bool_decide as H2; try done.
    by rewrite history_setHistory, E.
Qed.

Lemma addToHistory_cells st (random36 : jsstring) (now : Z) :
  let st' := App.addToHistory st random36 now in
  App.url st' = App.url st ∧ App.fgColor st' = App.fgColor st
  ∧ App.bgColor st' = App.bgColor st ∧ App.size st' = App.size st
  ∧ App.copied st' = App.copied st.
Proof.
  unfold App.addToHistory.
  destruct (_ || _); [done|]. destruct (App.history st); [done|].
  by case_bool_decide.
Qed.

Lemma distinctNeighbours_take (n : nat) h :
  Shape.distinctNeighbours h → Shape.distinctNeighbours (take n h).
Proof.
  revert n. induction h as [|e1 h IH]; intros [|n] H; try done.
  destruct h as [|e2 h]; [by rewrite firstn_cons, take_nil|].
  destruct H as [Hne H].
  destruct n as [|n]; [done|]. split; [done|]. by apply (IH (S n)).
Qed.

Lemma wellFormed_add st (random36 : jsstring) (now : Z) :
  Shape.wellFormed (App.history st) →
  Shape.wellFormed (App.history (App.addToHistory st random36 now)).
Proof.
  intros (Hl & Ht & Hd). rewrite addToHistory_history.
  case_bool_decide as Hb; [done|].
  assert (Hn : Shape.trimmedEntry (App.newItem st random36 now)).
  { split; [done|]. apply trim_idem. }
  destruct (App.history st) as [|e0 h] eqn:E.
  - split_and!; [cbn; lia|by constructor|done].
  - case_bool_decide as He; [done|]. split_and!.
    + cbn [length]. rewrite length_take. lia.
    + constructor; [done|]. by apply Forall_take.
    + change (Shape.distinctNeighbours
                (take 10 (App.newItem st random36 now :: e0 :: h))).
      apply distinctNeighbours_take. split; [|done].
      cbn [QRHistoryItem.url App.newItem]. congruence.
Qed.

(** X1. Whatever the length of the history (a hydrated one can be longer
    than ten), an add that is not suppressed leaves the new entry followed
    by the first nine old ones: the bound of ten holds from then on. *)
Theorem add_restores_capacity st (random36 : jsstring) (now : Z) :
  JS.trim (App.url st) ≠ [] →
  (∀ (first : QRHistoryItem.t) h,
     App.history st = first :: h →
     QRHistoryItem.url first ≠ JS.trim (App.url st)) →
  App.history (App.addToHistory st random36 now)
    = App.newItem st random36 now :: take 9 (App.history st)
  ∧ length (App.history (App.addToHistory st random36 now))
    = S (length (App.history st)) `min` 10.
Proof.
  intros Hb Hh.
  assert (E : App.history (App.addToHistory st random36 now)
              = App.newItem st random36 now :: take 9 (App.history st)).
  { rewrite addToHistory_history, bool_decide_eq_false_2 by done.
    destruct (App.history st) as [|e0 h] eqn:Eh; [done|].
    rewrite bool_decide_eq_false_2; [done|]. by eapply Hh. }
  split; [done|]. rewrite E. cbn [length]. rewrite length_take. lia.
Qed.

Lemma add_restores_capacity_witness :
  length (App.history Tour.overlong) = 11
  ∧ length (App.history
              (App.addToHistory Tour.overlong (JS.lit "0.4fzyo82mvyr")
                 1700000000000)) = 10.
Proof.
  split; [reflexivity|].
  destruct (add_restores_capacity Tour.overlong (JS.lit "0.4fzyo82mvyr")
              1700000000000) as [_ L].
  - vm_compute. discriminate.
  - intros first h [= <- _]. vm_compute. discriminate.
  - exact L.
Defined.

Lemma clickDownload_cells (page : App.Page) st (nowFile : Z)
    (random36 : jsstring) (nowItem : Z) :
  (App.clickDownload page st nowFile random36 nowItem).1 = st
  ∨ (App.clickDownload page st nowFile random36 nowItem).1
    = App.addToHistory st random36 nowItem.
Proof.
  unfold App.clickDownload, App.downloadQR.
  destruct (JS.falsy _), (App.qrCanvas page), (App.context2d page); auto.
Qed.

Lemma handle_download s (page : App.Page) (nowFile : Z)
    (random36 : jsstring) (nowItem : Z) :
  Session.cells
    (Session.handle s (Session.clickDownload page nowFile random36 nowItem)).1
  = (App.clickDownload page (Session.cells s) nowFile random36 nowItem).1.
Proof.
  cbn [Session.handle]. by destruct (App.clickDownload _ _ _ _ _).
Qed.

Lemma run_cons e es s :
  (Session.run (e :: es) s).1 = (Session.run es (Session.handle s e).1).1.
Proof.
  cbn [Session.run]. destruct (Session.handle s e) as [s1 o1]. cbn [fst].
  by destruct (Session.run es s1).
Qed.

(** What every event keeps, every run keeps. *)
Lemma run_invariant (P : Session.t → Prop) :
  (∀ s e, P s → P (Session.handle s e).1) →
  ∀ es s, P s → P (Session.run es s).1.
Proof.
  intros Hstep es. induction es as [|e es IH]; intros s Hs; [done|].
  rewrite run_cons. by apply IH, Hstep.
Qed.

Lemma handle_wellFormed s e :
  Shape.wellFormed (App.history (Session.cells s)) →
  Shape.wellFormed (App.history (Session.cells (Session.handle s e).1)).
Proof.
  intros Hw. destruct e; try done.
  - cbn [Session.handle]. by destruct clipboard.
  - cbn [Session.handle]. by destruct (Session.writes s), ok.
  - cbn [Session.handle]. by destruct (Session.timers s).
  - cbn [Session.handle]. destruct (App.history (Session.cells s)) eqn:E;
      [cbn [fst]; by rewrite E|].
    split_and!; [cbn; lia|by constructor|done].
  - cbn [Session.handle]. by destruct (_ !! i).
  - rewrite handle_download.
    destruct (clickDownload_cells page (Session.cells s) nowFile random36
                nowItem) as [-> | ->]; [done|].
    by apply wellFormed_add.
Qed.

(** X2. From a history of at most ten entries, with trimmed non-empty
    addresses and no two neighbours alike, every run of events leaves such a
    history. *)
Theorem session_keeps_wellFormed es s :
  Shape.wellFormed (App.history (Session.cells s)) →
  Shape.wellFormed (App.history (Session.cells (Session.run es s).1)).
Proof.
  apply (run_invariant
           (λ s, Shape.wellFormed (App.history (Session.cells s)))).
  intros s' e. apply handle_wellFormed.
Qed.

Lemma session_keeps_wellFormed_witness :
  Shape.wellFormed
    (App.history (Session.cells (Session.run Tour.events Session.start).1)).
Proof.
  apply session_keeps_wellFormed. split_and!; [cbn; lia|constructor|exact I].
Defined.

Lemma run_outputs_cons e es s :
  (Session.run (e :: es) s).2
  = (Session.handle s e).2 ++ (Session.run es (Session.handle s e).1).2.
Proof.
  cbn [Session.run]. destruct (Session.handle s e) as [s1 o1]. cbn [fst snd].
  by destruct (Session.run es s1).
Qed.

Lemma handle_quiet s e :
  Shape.quiet e = true →
  App.history (Session.cells (Session.handle s e).1)
    = App.history (Session.cells s)
  ∧ Forall (λ o, Shape.isDownload o = false) (Session.handle s e).2.
Proof.
  intros Hq. destruct e; try done; cbn [Session.handle];
    repeat case_match; (split; [reflexivity|by repeat constructor]).
Qed.

(** X3. Editing, copying and selecting a row never touch the list: a run
    without an export and without a clearing leaves the history as it was,
    entry for entry, and downloads nothing. *)
Theorem quiet_run_keeps_history es s :
  Forall (λ e, Shape.quiet e = true) es →
  App.history (Session.cells (Session.run es s).1)
    = App.history (Session.cells s)
  ∧ Forall (λ o, Shape.isDownload o = false) (Session.run es s).2.
Proof.
  intros Hq. revert s. induction Hq as [|e es He _ IH]; intros s.
  - split; [done|]. constructor.
  - rewrite run_cons, run_outputs_cons.
    destruct (handle_quiet s e He) as [Hh Ho].
    destruct (IH (Session.handle s e).1) as [Hh' Ho'].
    split; [by rewrite Hh'|]. by apply Forall_app.
Qed.

Lemma quiet_run_keeps_history_witness :
  let s := (Session.run (take 9 Tour.events) Session.start).1 in
  App.history
    (Session.cells
       (Session.run
          [Session.clickEntry 1; Session.changeBgColor (JS.lit "#fefefe");
           Session.clickCopy true; Session.clipboardSettles false;
           Session.changeSize 512] s).1)
  = App.history (Session.cells s).
Proof.
  intros s. apply quiet_run_keeps_history. by repeat constructor.
Defined.



(** X5. A click on the export button downloads exactly when the address is
    not the empty string and the page has both the preview canvas and a 2D
    context; it downloads at most one file, the history changes only if a
    file was downloaded, and the address, colours, size and tick stay. *)
Theorem export_downloads_iff s (page : App.Page) (nowFile : Z)
    (random36 : jsstring) (nowItem : Z) :
  let r := Session.handle s
             (Session.clickDownload page nowFile random36 nowItem) in
  (existsb Shape.isDownload r.2 = true
   ↔ App.url (Session.cells s) ≠ [] ∧ App.qrCanvas page = true
     ∧ App.context2d page = true)
  ∧ length (filter (λ o, Shape.isDownload o = true) r.2) ≤ 1
  ∧ (App.history (Session.cells r.1) ≠ App.history (Session.cells s) →
     existsb Shape.isDownload r.2 = true)
  ∧ App.url (Session.cells r.1) = App.url (Session.cells s)
  ∧ App.fgColor (Session.cells r.1) = App.fgColor (Session.cells s)
  ∧ App.bgColor (Session.cells r.1) = App.bgColor (Session.cells s)
  ∧ App.size (Session.cells r.1) = App.size (Session.cells s)
  ∧ App.copied (Session.cells r.1) = App.copied (Session.cells s).
Proof.
  cbn zeta. cbn [Session.handle]. unfold App.clickDownload, App.downloadQR.
  destruct (addToHistory_cells (Session.cells s) random36 nowItem)
    as (Hu & Hf & Hb & Hz & Hc).
  destruct (App.url (Session.cells s)) as [|c u] eqn:Eu; cbn [JS.falsy];
    [|destruct (App.qrCanvas page), (App.context2d page)]; cbn [fst snd];
    split_and!; try done;
    try (cbn; lia);
    try (split; [discriminate|by intros (? & ? & ?)]);
    try (intros H; exfalso; by apply H).
  vm_compute. lia.
Qed.

Lemma export_downloads_iff_witness :
  existsb Shape.isDownload
    (Session.handle Session.start
       (Session.clickDownload Tour.ready 1700000000000
          (JS.lit "0.4fzyo82mvyr") 1700000000001)).2 = true
  ∧ existsb Shape.isDownload
      (Session.handle Session.start
         (Session.clickDownload (App.mkPage true false) 1700000000000
            (JS.lit "0.4fzyo82mvyr") 1700000000001)).2 = false.
Proof.
  split.
  - destruct (export_downloads_iff Session.start Tour.ready 1700000000000
                (JS.lit "0.4fzyo82mvyr") 1700000000001) as [H _].
    apply H. by split_and!.
  - destruct (export_downloads_iff Session.start (App.mkPage true false)
                1700000000000 (JS.lit "0.4fzyo82mvyr") 1700000000001)
      as [H _].
    apply not_true_is_false. intros Hd. by apply H in Hd as (_ & _ & ?).
Defined.






(** X7. The tick of the copy button is never left on for good: after every
    run of events, if [copied] is set then one of the timers that clear it
    is still to fire. *)
Theorem tick_has_timer es s :
  (App.copied (Session.cells s) = true → 0 < Session.timers s) →
  App.copied (Session.cells (Session.run es s).1) = true →
  0 < Session.timers (Session.run es s).1.
Proof.
  revert s. apply (run_invariant
    (λ s, App.copied (Session.cells s) = true → 0 < Session.timers s)).
  intros s e Hs. destruct e; cbn [Session.handle]; try exact Hs.
  - by destruct clipboard.
  - destruct (Session.writes s), ok; cbn; try exact Hs. lia.
  - destruct (Session.timers s) eqn:E; cbn; [by rewrite E|done].
  - by destruct (App.history (Session.cells s)).
  - by destruct (_ !! i).
  - destruct (App.clickDownload _ _ _ _ _) as [st out] eqn:E. cbn.
    destruct (clickDownload_cells page (Session.cells s) nowFile random36
                nowItem) as [H|H]; rewrite E in H; cbn in H; subst st;
      [done|].
    destruct (addToHistory_cells (Session.cells s) random36 nowItem)
      as (_ & _ & _ & _ & Hc). by rewrite Hc.
Qed.

Lemma tick_has_timer_witness :
  let s := (Session.run (take 9 Tour.events) Session.start).1 in
  App.copied (Session.cells s) = true ∧ 0 < Session.timers s.
Proof.
  intros s. assert (Hc : App.copied (Session.cells s) = true) by reflexivity.
  split; [exact Hc|].
  apply (tick_has_timer (take 9 Tour.events) Session.start); [|exact Hc].
  cbn. discriminate.
Defined.

(** X8. Clearing empties the list and changes no other cell (address,
    colours, size and tick stay, and so do the pending clipboard writes and
    timers); what is then stored is the text of the empty array, and a page
    mounted on that text starts with an empty history and logs nothing. *)
Theorem clear_then_reload s :
  let s' := (Session.handle s Session.clickClear).1 in
  App.history (Session.cells s') = []
  ∧ Session.stored s' = JS.lit "[]"
  ∧ App.mount (Some (Session.stored s'))
    = JS.Normal (App.mkMounted (App.historyValue []) (JS.lit "[]") [])
  ∧ App.url (Session.cells s') = App.url (Session.cells s)
  ∧ App.fgColor (Session.cells s') = App.fgColor (Session.cells s)
  ∧ App.bgColor (Session.cells s') = App.bgColor (Session.cells s)
  ∧ App.size (Session.cells s') = App.size (Session.cells s)
  ∧ App.copied (Session.cells s') = App.copied (Session.cells s)
  ∧ Session.writes s' = Session.writes s
  ∧ Session.timers s' = Session.timers s.
Proof.
  cbn zeta. cbn [Session.handle].
  assert (H : App.history
                (Session.cells
                   match App.history (Session.cells s) with
                   | [] => (s, [])
                   | _ :: _ =>
                       (Session.mk (App.clearHistory (Session.cells s))
                          (Session.writes s) (Session.timers s),
                        @nil Session.Output)
                   end.1) = []).
  { by destruct (App.history (Session.cells s)) eqn:E. }
  unfold Session.stored. rewrite H.
  split_and!; try reflexivity; by destruct (App.history (Session.cells s)).
Qed.

End Sessions.

(** * Further properties: the exported file *)

Section Files.

Lemma numberToString_inj (n1 n2 : Z) :
  JS.numberToString n1 = JS.numberToString n2 → n1 = n2.
Proof.
  intros E.
  pose proof (readNumber_numberToString n1 [] I) as H1.
  pose proof (readNumber_numberToString n2 [] I) as H2.
  rewrite E, H2 in H1. by injection H1.
Qed.

Lemma numberToString_digits (n : Z) :
  (0 ≤ n)%Z →
  JS.numberToString n ≠ []
  ∧ Forall (λ c, JSON.isDigit c = true) (JS.numberToString n).
Proof.
  intros Hn. destruct n as [|p|p]; [by split; [|repeat constructor]| |lia].
  cbn [JS.numberToString]. split; [|apply digits_isDigit].
  destruct (to_uint_head p) as (c & r & -> & _). done.
Qed.

(** X9. The file name is [qr-code-], the decimal digits of the time, then
    [.png] (for a time that is not negative), and two exports at different
    milliseconds never get the same name. *)
Theorem filename_shape_and_injective :
  (∀ n1 n2 : Z, App.filename n1 = App.filename n2 → n1 = n2)
  ∧ (∀ n : Z, (0 ≤ n)%Z →
       ∃ ds, App.filename n = JS.lit "qr-code-" ++ ds ++ JS.lit ".png"
             ∧ ds ≠ [] ∧ Forall (λ c, JSON.isDigit c = true) ds).
Proof.
  split.
  - intros n1 n2 E. unfold App.filename in E.
    apply app_inv_head, app_inv_tail in E. by apply numberToString_inj.
  - intros n Hn. exists (JS.numberToString n).
    destruct (numberToString_digits n Hn). by split_and!.
Qed.

Lemma filename_shape_and_injective_witness :
  App.filename 1700000000000 = JS.lit "qr-code-1700000000000.png"
  ∧ App.filename 1700000000000 ≠ App.filename 1700000000001.
Proof.
  split; [reflexivity|]. intros E.
  by apply (proj1 filename_shape_and_injective) in E.
Defined.

(** X10. The load effect never throws.  What it hands to [setHistory] is
    what [JSON.parse] makes of the stored text, when it makes something of
    it; it logs once, and only when the stored text is not empty and is not
    JSON: an absent entry and an empty string are passed over in silence. *)
Theorem load_effect_outcome (saved : option jsstring) :
  ∃ log,
    App.loadEffect saved = JS.Normal (saved ≫= JSON.parse, log)
    ∧ (log = []
       ∨ log = [App.consoleError (JS.lit "Failed to parse history")])
    ∧ (log ≠ [] ↔ ∃ text, saved = Some text ∧ text ≠ []
                          ∧ JSON.parse text = None).
Proof.
  unfold App.loadEffect, JSON.JSON_parse.
  destruct saved as [[|c text]|]; cbn [JS.falsy mbind option_bind].
  - exists []. split_and!; [done|by left|]. split; [done|].
    by intros (t & [= <-] & Ht & _).
  - destruct (JSON.parse (c :: text)) as [v|] eqn:E; cbn.
    + exists []. split_and!; [done|by left|]. split; [done|].
      intros (t & [= <-] & _ & Ht). congruence.
    + eexists. split_and!; [done|by right|]. split; [|done].
      intros _. by exists (c :: text).
  - exists []. split_and!; [done|by left|]. split; [done|].
    by intros (t & Ht & _).
Qed.

End Files.

(** * Further properties: the symbol and the rounded corners *)

Section Corners.

Local Open Scope Q_scope.

(** A point at least a quarter of the radius away from both edges of a
    corner is on the inner side of its curve. *)
Lemma not_cutOff (r x y : Q) :
  0 <= r → r <= 4 * x → r <= 4 * y → ¬ Shape.cutOff r x y.
Proof.
  intros Hr Hx Hy (t & H0 & H1 & Ht & Hu).
  destruct (Qlt_le_dec t (1 # 2)) as [Hlt|Hge].
  - assert (t * t * r <= (1 # 4) * r) by nra. lra.
  - assert ((1 - t) * (1 - t) * r <= (1 # 4) * r) by nra. lra.
Qed.

End Corners.

(** X11. At every size of the slider the symbol lies on the background: no
    point of the square drawn at [(padding, padding)] is in the region that
    one of the four rounded corners (radius [total * 0.1]) leaves out; the
    corners do not meet (twice the radius is at most the side), and the
    square ends at least one pixel before the side of the canvas. *)
Theorem symbol_clear_of_corners (z : Z) (bg : jsstring) :
  (128 ≤ z ≤ 512)%Z →
  let size := JS.ofInteger z in
  ∃ p T r : Q,
    exact (App.padding size) = Some p
    ∧ exact (App.totalSize size) = Some T
    ∧ exact (App.totalSize size * 0.1) = Some r
    ∧ App.compose size bg !! 3%nat
      = Some (App.context (App.moveTo (App.totalSize size * 0.1) 0))
    ∧ App.compose size bg !! 14%nat
      = Some (App.context
                (App.drawImage (App.padding size) (App.padding size)
                   size size))
    ∧ (0 <= r)%Q ∧ (2 * r <= T)%Q ∧ (p + inject_Z z + 1 <= T)%Q
    ∧ ∀ x y : Q,
        (p <= x)%Q → (x <= p + inject_Z z)%Q →
        (p <= y)%Q → (y <= p + inject_Z z)%Q →
        ¬ Shape.cutOff r x y ∧ ¬ Shape.cutOff r (T - x) y
        ∧ ¬ Shape.cutOff r x (T - y) ∧ ¬ Shape.cutOff r (T - x) (T - y).
Proof.
  intros Hz size.
  assert (G : Shape.symbol_ok z = true).
  { clear size. revert z Hz. apply sizes_checked. vm_compute. reflexivity. }
  unfold Shape.symbol_ok in G. fold size in G.
  destruct (exact (App.padding size)) as [p|]; [|done].
  destruct (exact size) as [s|]; [|done].
  destruct (exact (App.totalSize size)) as [T|]; [|done].
  destruct (exact (App.totalSize size * 0.1)) as [r|]; [|done].
  repeat (apply andb_true_iff in G as [G ?]).
  repeat match goal with
         | H : Qle_bool _ _ = true |- _ => apply Qle_bool_iff in H
         | H : Qeq_bool _ _ = true |- _ => apply Qeq_bool_iff in H
         end.
  exists p, T, r. split_and!; try reflexivity; try lra.
  intros x y Hx1 Hx2 Hy1 Hy2.
  split_and!; apply not_cutOff; lra.
Qed.

Lemma symbol_clear_of_corners_witness :
  ∃ p T r : Q,
    exact (App.padding 256) = Some p ∧ exact (App.totalSize 256) = Some T
    ∧ exact (App.totalSize 256 * 0.1) = Some r
    ∧ ¬ Shape.cutOff r p p ∧ ¬ Shape.cutOff r (T - (p + 256)) (T - (p + 256)).
Proof.
  destruct (symbol_clear_of_corners 256 (JS.lit "#ffffff"))
    as (p & T & r & Hp & HT & Hr & _ & _ & H0 & H1 & H2 & H); [lia|].
  exists p, T, r. split_and!; [exact Hp|exact HT|exact Hr| |].
  - apply (H p p); change (inject_Z 256) with 256%Q; lra.
  - destruct (H (p + 256)%Q (p + 256)%Q) as (_ & _ & _ & Hc);
      change (inject_Z 256) with 256%Q; try lra.
    intros (t & ? & ? & ? & ?). apply Hc. exists t. split_and!; try done.
Defined.

(** * Further properties: rows and downloads *)

Section Rows.

Implicit Types (s : Session.t) (e : Session.Event) (es : list Session.Event).

Lemma downloads_app (o1 o2 : list Session.Output) :
  Shape.downloads (o1 ++ o2) = Shape.downloads o1 + Shape.downloads o2.
Proof. unfold Shape.downloads. by rewrite filter_app, length_app. Qed.

Lemma handle_rows s e :
  length (App.history (Session.cells (Session.handle s e).1))
  ≤ length (App.history (Session.cells s)) + Shape.downloads (Session.handle s e).2.
Proof.
  destruct (decide (Shape.quiet e = true)) as [Hq|Hq].
  { destruct (handle_quiet s e Hq) as [-> _]. lia. }
  destruct e; try done.
  - cbn [Session.handle].
    destruct (App.history (Session.cells s)) eqn:E; cbn [fst snd];
      rewrite ?E; cbn; lia.
  - cbn [Session.handle]. unfold App.clickDownload, App.downloadQR.
    destruct (JS.falsy _), (App.qrCanvas page), (App.context2d page);
      cbn [fst snd Session.cells]; try lia.
    rewrite addToHistory_history. repeat case_match; try lia.
    + cbn [length]. change (Shape.downloads _) with 1. lia.
    + cbn [length]. rewrite length_take. cbn [length].
      change (Shape.downloads _) with 1. lia.
Qed.

(** X12. The list never gains a row without a file: after any run of
    events it has at most as many rows as it started with plus the files
    the run downloaded. *)
Theorem rows_bounded_by_downloads es s :
  length (App.history (Session.cells (Session.run es s).1))
  ≤ length (App.history (Session.cells s)) + Shape.downloads (Session.run es s).2.
Proof.
  revert s. induction es as [|e es IH]; intros s; [cbn; lia|].
  rewrite run_cons, run_outputs_cons, downloads_app.
  pose proof (handle_rows s e). pose proof (IH (Session.handle s e).1). lia.
Qed.

Lemma download_head s (page : App.Page) (nowFile : Z)
    (random36 : jsstring) (nowItem : Z) :
  App.qrCanvas page = true → App.context2d page = true →
  JS.trim (App.url (Session.cells s)) ≠ [] →
  QRHistoryItem.url
    <$> head (App.history
                (Session.cells
                   (Session.handle s
                      (Session.clickDownload page nowFile random36
                         nowItem)).1))
  = Some (JS.trim (App.url (Session.cells s))).
Proof.
  intros Hq Hc Hb. rewrite handle_download.
  unfold App.clickDownload, App.downloadQR. rewrite Hq, Hc.
  assert (Hf : JS.falsy (App.url (Session.cells s)) = false).
  { revert Hb. by destruct (App.url (Session.cells s)). }
  rewrite Hf. cbn [fst]. rewrite addToHistory_history.
  rewrite bool_decide_eq_false_2 by done.
  destruct (App.history (Session.cells s)) as [|first h]; [done|].
  case_bool_decide as He; cbn; [by rewrite He|done].
Qed.

(** X13. After an export that went through, of an address that is not
    blank, the first row carries that address, trimmed: either it was just
    recorded or it was there already. *)
Theorem exported_address_is_first s (page : App.Page) (nowFile : Z)
    (random36 : jsstring) (nowItem : Z) :
  App.qrCanvas page = true → App.context2d page = true →
  JS.trim (App.url (Session.cells s)) ≠ [] →
  QRHistoryItem.url
    <$> head (App.history
                (Session.cells
                   (Session.handle s
                      (Session.clickDownload page nowFile random36
                         nowItem)).1))
  = Some (JS.trim (App.url (Session.cells s))).
Proof. apply download_head. Qed.

Lemma exported_address_is_first_witness :
  QRHistoryItem.url
    <$> head (App.history
                (Session.cells
                   (Session.handle
                      (Session.mk (App.setUrl (JS.lit "  x  ") App.initial) 0 0)
                      (Session.clickDownload Tour.ready 1700000000000
                         (JS.lit "0.4fzyo82mvyr") 1700000000001)).1))
  = Some (JS.lit "x").
Proof.
  rewrite exported_address_is_first; [vm_compute; reflexivity|done|done|].
  vm_compute. discriminate.
Defined.

(** X15. The export encodes the address as typed, the list keeps it
    trimmed: exporting and then selecting the first row leaves the trimmed
    address in the field, so the preview encodes the same text as the
    exported file exactly when the address had no white space around it. *)
Theorem export_then_select_trims s (page : App.Page) (nowFile : Z)
    (random36 : jsstring) (nowItem : Z) :
  App.qrCanvas page = true → App.context2d page = true →
  JS.trim (App.url (Session.cells s)) ≠ [] →
  let s2 := (Session.run
               [Session.clickDownload page nowFile random36 nowItem;
                Session.clickEntry 0] s).1 in
  App.url (Session.cells s2) = JS.trim (App.url (Session.cells s))
  ∧ Session.qrValue (Session.cells s2) = JS.trim (App.url (Session.cells s))
  ∧ (Session.qrValue (Session.cells s2) = Session.qrValue (Session.cells s)
     ↔ JS.trim (App.url (Session.cells s)) = App.url (Session.cells s)).
Proof.
  intros Hq Hc Hb s2.
  pose proof (download_head s page nowFile random36 nowItem Hq Hc Hb) as Hh.
  assert (Hu : App.url (Session.cells s2)
               = JS.trim (App.url (Session.cells s))).
  { unfold s2. rewrite !run_cons. cbn [Session.run fst].
    set (s1 := (Session.handle s _).1) in *. cbn [Session.handle].
    rewrite <- head_lookup.
    destruct (head (App.history (Session.cells s1))) as [first|]; [|done].
    cbn in Hh. by injection Hh. }
  assert (Hv : Session.qrValue (Session.cells s2)
               = JS.trim (App.url (Session.cells s))).
  { unfold Session.qrValue. rewrite Hu.
    by destruct (JS.trim (App.url (Session.cells s))). }
  split_and!; [done..|]. rewrite Hv. unfold Session.qrValue.
  assert (Hf : JS.falsy (App.url (Session.cells s)) = false).
  { revert Hb. by destruct (App.url (Session.cells s)). }
  by rewrite Hf.
Qed.

Lemma export_then_select_trims_witness :
  let s := Session.mk (App.setUrl (JS.lit "  x  ") App.initial) 0 0 in
  let s2 := (Session.run
               [Session.clickDownload Tour.ready 1700000000000
                  (JS.lit "0.4fzyo82mvyr") 1700000000001;
                Session.clickEntry 0] s).1 in
  Session.qrValue (Session.cells s) = JS.lit "  x  "
  ∧ Session.qrValue (Session.cells s2) = JS.lit "x".
Proof.
  intros s s2. split; [reflexivity|].
  destruct (export_then_select_trims s Tour.ready 1700000000000
              (JS.lit "0.4fzyo82mvyr") 1700000000001) as (_ & Hv & _);
    [done|done|vm_compute; discriminate|].
  fold s2 in Hv. rewrite Hv. vm_compute. reflexivity.
Defined.

(** X14. Adds never alter or reorder what is in the list: after any
    sequence of adds the history is a subsequence of the calls' entries,
    latest call first, followed by the old history. *)
Theorem adds_keep_order (cs : list Store.call) (st : App.State) :
  App.history (Store.adds cs st)
    `sublist_of` reverse (Store.entry <$> cs) ++ App.history st.
Proof. rewrite adds_history. apply foldl_next_sublist. Qed.

End Rows.
